(** * actionnetwork-ical: a shallow embedding of [src/index.ts]

    The program is a small Hono application.  It reads Action Network API
    keys from the process environment, lists them at [/directory], and at
    [/events] fetches the (paginated) event feeds of the requested keys,
    merges them and builds an iCal calendar.

    The embedding follows the source function by function:

    - [API_KEYS], [directory_handler], [events_handler],
      [generateICalForFeeds], [fetchAllEventsForCalendar] are the source's
      own definitions;
    - the JavaScript built-ins the source calls ([Date], [String.prototype],
      [Array.prototype.join], [URLSearchParams], property lookup on an
      ordinary object, [Promise.all]) are written out after ECMA-262 as far
      as the source uses them;
    - of ical-generator, which is not part of the source, [createEvent] is
      written out as far as the source depends on it;
    - what the host decides (the local time zone, the non-ISO fallback of
      [Date.parse], the system clock, the answers of the upstream server
      and the order in which they arrive) is an explicit argument.

    Strings are byte strings; the case mappings are those of ASCII, which
    is what feed identifiers (suffixes of environment variable names) use. *)

From Stdlib Require Import ZArith List String Ascii Bool Lia Permutation.
Import ListNotations.
Open Scope string_scope.
Open Scope Z_scope.

(* ================================================================== *)
(** * Part I: definitions                                               *)
(* ================================================================== *)

(** ** Exceptions

    The source never catches anything and never constructs an error of its
    own: what propagates is the built-in exception, carrying no feed
    identifier. *)

Inductive JSError : Type :=
| TypeError      (* property access on [undefined], spread of a non-iterable *)
| RangeError     (* [toISOString] of an invalid date *)
| SyntaxError    (* [response.json()] on a body that is not JSON *)
| FetchFailed    (* [fetch] rejected: network failure *)
| InvalidDateError.  (* the [Error] of ical-generator for an invalid date *)

Inductive Completion (A : Type) : Type :=
| Normal (a : A)
| Throw (e : JSError).
Arguments Normal {A} a.
Arguments Throw {A} e.

Definition bindC {A B} (c : Completion A) (k : A -> Completion B) : Completion B :=
  match c with
  | Normal a => k a
  | Throw e => Throw e
  end.

Notation "x <-! c ; k" := (bindC c (fun x => k))
  (at level 61, c at next level, right associativity).

Notation "x <-? c ; k" :=
  (match c with Some x => k | None => None end)
  (at level 61, c at next level, right associativity).

Notation "' p <-? c ; k" :=
  (match c with Some p => k | None => None end)
  (at level 61, p pattern, c at next level, right associativity).

(** ** Decimal fields of a date string *)

Definition digit_char (d : Z) : ascii := ascii_of_nat (48 + Z.to_nat d).

Definition is_digit (c : ascii) : bool :=
  let n := nat_of_ascii c in (48 <=? n)%nat && (n <=? 57)%nat.

Definition digit_val (c : ascii) : Z := Z.of_nat (nat_of_ascii c - 48).

(** [digits n v rest]: the [n] low decimal digits of [v], most significant
    first, in front of [rest]. *)
Fixpoint digits (n : nat) (v : Z) (rest : string) : string :=
  match n with
  | O => rest
  | S k => digits k (v / 10) (String (digit_char (v mod 10)) rest)
  end.

(** [read_digits n acc s]: read exactly [n] decimal digits off the front of
    [s]. *)
Fixpoint read_digits (n : nat) (acc : Z) (s : string) : option (Z * string) :=
  match n with
  | O => Some (acc, s)
  | S k =>
      match s with
      | String c r =>
          if is_digit c then read_digits k (10 * acc + digit_val c) r else None
      | EmptyString => None
      end
  end.

Definition expect (c : ascii) (s : string) : option string :=
  match s with
  | String c' r => if Ascii.eqb c c' then Some r else None
  | EmptyString => None
  end.

(** ** [Date]: time values and the ECMA-262 date algorithms

    A time value is a number of milliseconds since the epoch, or NaN
    ([None]).  Finite time values are integers of magnitude at most
    8.64e15 < 2^53, so the arithmetic of the source on them is exact. *)

Module JSDate.

Definition msPerSecond : Z := 1000.
Definition msPerMinute : Z := 60000.
Definition msPerHour : Z := 3600000.
Definition msPerDay : Z := 86400000.
Definition maxTime : Z := 8640000000000000.

Definition Day (t : Z) : Z := t / msPerDay.
Definition TimeWithinDay (t : Z) : Z := t mod msPerDay.

Definition DayFromYear (y : Z) : Z :=
  365 * (y - 1970) + (y - 1969) / 4 - (y - 1901) / 100 + (y - 1601) / 400.

Definition isLeapYear (y : Z) : bool :=
  ((y mod 4 =? 0) && negb (y mod 100 =? 0)) || (y mod 400 =? 0).

Definition DaysInYear (y : Z) : Z := if isLeapYear y then 366 else 365.

(** ECMA-262: the largest [y] with [DayFromYear y <= Day t].  Computed from
    the estimate of one year per 146097/400 days, corrected by one step. *)
Definition YearFromDay (d : Z) : Z :=
  let y := 1970 + d * 400 / 146097 in
  if d <? DayFromYear y then y - 1
  else if DayFromYear (y + 1) <=? d then y + 1
  else y.

Definition YearFromTime (t : Z) : Z := YearFromDay (Day t).
Definition InLeapYear (t : Z) : Z := if isLeapYear (YearFromTime t) then 1 else 0.
Definition DayWithinYear (t : Z) : Z := Day t - DayFromYear (YearFromTime t).

(** First day within the year of month [m] (0-based), [leap] being 0 or 1. *)
Definition monthStart (leap m : Z) : Z :=
  match m with
  | 0 => 0
  | 1 => 31
  | 2 => 59 + leap
  | 3 => 90 + leap
  | 4 => 120 + leap
  | 5 => 151 + leap
  | 6 => 181 + leap
  | 7 => 212 + leap
  | 8 => 243 + leap
  | 9 => 273 + leap
  | 10 => 304 + leap
  | 11 => 334 + leap
  | _ => 365 + leap
  end.

Definition monthOfDay (leap d : Z) : Z :=
  if d <? 31 then 0
  else if d <? 59 + leap then 1
  else if d <? 90 + leap then 2
  else if d <? 120 + leap then 3
  else if d <? 151 + leap then 4
  else if d <? 181 + leap then 5
  else if d <? 212 + leap then 6
  else if d <? 243 + leap then 7
  else if d <? 273 + leap then 8
  else if d <? 304 + leap then 9
  else if d <? 334 + leap then 10
  else 11.

Definition MonthFromTime (t : Z) : Z := monthOfDay (InLeapYear t) (DayWithinYear t).

Definition DateFromTime (t : Z) : Z :=
  DayWithinYear t - monthStart (InLeapYear t) (MonthFromTime t) + 1.

Definition HourFromTime (t : Z) : Z := (t / msPerHour) mod 24.
Definition MinFromTime (t : Z) : Z := (t / msPerMinute) mod 60.
Definition SecFromTime (t : Z) : Z := (t / msPerSecond) mod 60.
Definition msFromTime (t : Z) : Z := t mod msPerSecond.

Definition MakeTime (hour min sec ms : Z) : Z :=
  hour * msPerHour + min * msPerMinute + sec * msPerSecond + ms.

Definition MakeDay (year month date : Z) : Z :=
  let ym := year + month / 12 in
  let mn := month mod 12 in
  DayFromYear ym + monthStart (if isLeapYear ym then 1 else 0) mn + date - 1.

Definition MakeDate (day time : Z) : Z := day * msPerDay + time.

Definition TimeClip (t : Z) : option Z :=
  if Z.abs t <=? maxTime then Some t else None.

Definition daysInMonth (year month : Z) : Z :=
  let leap := if isLeapYear year then 1 else 0 in
  monthStart leap (month + 1) - monthStart leap month.

(** *** [Date.prototype.toISOString] *)

Definition yearString (y : Z) (rest : string) : string :=
  if (0 <=? y) && (y <=? 9999) then digits 4 y rest
  else if 0 <=? y then String "+" (digits 6 y rest)
  else String "-" (digits 6 (- y) rest).

Definition formatISO (t : Z) : string :=
  yearString (YearFromTime t)
    (String "-" (digits 2 (MonthFromTime t + 1)
    (String "-" (digits 2 (DateFromTime t)
    (String "T" (digits 2 (HourFromTime t)
    (String ":" (digits 2 (MinFromTime t)
    (String ":" (digits 2 (SecFromTime t)
    (String "." (digits 3 (msFromTime t) "Z")))))))))))).

Definition toISOString (tv : option Z) : Completion string :=
  match tv with
  | Some t => Normal (formatISO t)
  | None => Throw RangeError
  end.

(** *** [Date.parse]

    ECMA-262 fixes the result for the Date Time String Format and leaves
    every other string to the implementation.  [parseISO] recognises the
    complete UTC forms [YYYY-MM-DDTHH:mm:ssZ] and [YYYY-MM-DDTHH:mm:ss.sssZ]
    (four-digit or signed six-digit year) with every field in range, which
    is what Action Network sends and what [toISOString] produces; any other
    string is handed to the host's parser. *)

Definition readYear (s : string) : option (Z * string) :=
  match s with
  | String c r =>
      if Ascii.eqb c "+" then read_digits 6 0 r
      else if Ascii.eqb c "-" then
        '(y, r') <-? read_digits 6 0 r;
        if y =? 0 then None else Some (- y, r')
      else read_digits 4 0 s
  | EmptyString => None
  end.

Definition readMillis (s : string) : option (Z * string) :=
  match s with
  | String "." r => read_digits 3 0 r
  | _ => Some (0, s)
  end.

Definition parseISO (s : string) : option (option Z) :=
  '(y, s) <-? readYear s;
  s <-? expect "-" s;
  '(mo, s) <-? read_digits 2 0 s;
  s <-? expect "-" s;
  '(d, s) <-? read_digits 2 0 s;
  s <-? expect "T" s;
  '(h, s) <-? read_digits 2 0 s;
  s <-? expect ":" s;
  '(mi, s) <-? read_digits 2 0 s;
  s <-? expect ":" s;
  '(sec, s) <-? read_digits 2 0 s;
  '(ms, s) <-? readMillis s;
  match s with
  | "Z" =>
      if (1 <=? mo) && (mo <=? 12) && (1 <=? d) && (d <=? daysInMonth y (mo - 1))
         && (h <=? 23) && (mi <=? 59) && (sec <=? 59)
      then Some (TimeClip (MakeDate (MakeDay y (mo - 1) d) (MakeTime h mi sec ms)))
      else None
  | _ => None
  end.

End JSDate.

(** ** The host

    Everything the program takes from its environment rather than from its
    own source. *)

Record Host : Type := {
  (** ECMA-262 LocalTZA(t, isUTC): the offset of local time, in
      milliseconds, at UTC time [t] ([isUTC = true]) or at local time [t]
      ([isUTC = false]). *)
  LocalTZA : Z -> bool -> Z;
  (** The implementation-defined part of [Date.parse]. *)
  legacyDateParse : string -> option Z;
  (** The [n]-th reading of the system clock. *)
  clock : nat -> Z
}.

Module DateObject.
Import JSDate.

(** A [Date] object is its time value. *)
Definition Date : Type := option Z.

Definition LocalTime (h : Host) (t : Z) : Z := t + LocalTZA h t true.
Definition UTC (h : Host) (t : Z) : Z := t - LocalTZA h t false.

(** [new Date(s)] *)
Definition parse (h : Host) (s : string) : Date :=
  match parseISO s with
  | Some tv => tv
  | None =>
      match legacyDateParse h s with
      | Some t => TimeClip t
      | None => None
      end
  end.

(** [new Date()] at the [n]-th reading of the clock *)
Definition now (h : Host) (n : nat) : Date := TimeClip (clock h n).

(** [d.getHours()]; [None] is NaN *)
Definition getHours (h : Host) (d : Date) : option Z :=
  match d with
  | Some t => Some (HourFromTime (LocalTime h t))
  | None => None
  end.

(** [d.setHours(hour)]: the new time value of [d] *)
Definition setHours (h : Host) (d : Date) (hour : option Z) : Date :=
  match d, hour with
  | Some t, Some hr =>
      let t' := LocalTime h t in
      let date :=
        MakeDate (Day t') (MakeTime hr (MinFromTime t') (SecFromTime t') (msFromTime t')) in
      TimeClip (UTC h date)
  | _, _ => None
  end.

End DateObject.

(** ** Strings and arrays of strings

    [toUpperCase], [toLowerCase] and [charAt] are those of JavaScript on
    ASCII strings ([isAscii]); on other strings JavaScript maps Unicode
    characters, which is not modelled.  The statements about case are
    made for ASCII strings. *)

Module JSString.

Definition isAsciiChar (c : ascii) : bool := (nat_of_ascii c <? 128)%nat.

Definition isLowerLetter (c : ascii) : bool :=
  let n := nat_of_ascii c in (97 <=? n)%nat && (n <=? 122)%nat.

Definition isUpperLetter (c : ascii) : bool :=
  let n := nat_of_ascii c in (65 <=? n)%nat && (n <=? 90)%nat.

Fixpoint forallChars (p : ascii -> bool) (s : string) : bool :=
  match s with
  | EmptyString => true
  | String c r => p c && forallChars p r
  end.

Definition isAscii (s : string) : bool := forallChars isAsciiChar s.

Definition noLowerLetter (s : string) : bool :=
  forallChars (fun c => negb (isLowerLetter c)) s.

Definition noUpperLetter (s : string) : bool :=
  forallChars (fun c => negb (isUpperLetter c)) s.

Definition toUpperChar (c : ascii) : ascii :=
  let n := nat_of_ascii c in
  if (97 <=? n)%nat && (n <=? 122)%nat then ascii_of_nat (n - 32) else c.

Definition toLowerChar (c : ascii) : ascii :=
  let n := nat_of_ascii c in
  if (65 <=? n)%nat && (n <=? 90)%nat then ascii_of_nat (n + 32) else c.

Fixpoint map_chars (f : ascii -> ascii) (s : string) : string :=
  match s with
  | EmptyString => EmptyString
  | String c r => String (f c) (map_chars f r)
  end.

Definition toUpperCase : string -> string := map_chars toUpperChar.
Definition toLowerCase : string -> string := map_chars toLowerChar.

(** [s.charAt(0)] *)
Definition charAt0 (s : string) : string :=
  match s with
  | EmptyString => EmptyString
  | String c _ => String c EmptyString
  end.

(** [s.slice(1)] *)
Definition slice1 (s : string) : string :=
  match s with
  | EmptyString => EmptyString
  | String _ r => r
  end.

(** [a.join(sep)] *)
Fixpoint join (sep : string) (a : list string) : string :=
  match a with
  | [] => EmptyString
  | [x] => x
  | x :: r => (x ++ sep ++ join sep r)%string
  end.

(** [s.split(sep)] for a one-character separator *)
Fixpoint split (sep : ascii) (s : string) : list string :=
  match s with
  | EmptyString => [EmptyString]
  | String c r =>
      if Ascii.eqb c sep then EmptyString :: split sep r
      else
        match split sep r with
        | w :: ws => String c w :: ws
        | [] => [String c EmptyString]
        end
  end.

Fixpoint contains (c : ascii) (s : string) : bool :=
  match s with
  | EmptyString => false
  | String c' r => Ascii.eqb c' c || contains c r
  end.

(** [s.startsWith(p)] *)
Definition startsWith (p s : string) : bool := String.prefix p s.

(** [s.substring(n)] *)
Definition substringFrom (n : nat) (s : string) : string :=
  String.substring n (String.length s - n) s.

(** A non-empty string is truthy. *)
Definition truthy (s : string) : bool := negb (String.eqb s EmptyString).

End JSString.

(** ** [URLSearchParams]: the application/x-www-form-urlencoded serializer *)

Module URLSearchParams.

Definition hexDigit (n : nat) : ascii :=
  if (n <? 10)%nat then ascii_of_nat (48 + n) else ascii_of_nat (55 + n).

Definition unreserved (c : ascii) : bool :=
  let n := nat_of_ascii c in
  ((48 <=? n) && (n <=? 57) || (65 <=? n) && (n <=? 90) || (97 <=? n) && (n <=? 122)
   || (n =? 42) || (n =? 45) || (n =? 46) || (n =? 95))%nat.

Fixpoint encode (s : string) : string :=
  match s with
  | EmptyString => EmptyString
  | String c r =>
      let n := nat_of_ascii c in
      if unreserved c then String c (encode r)
      else if (n =? 32)%nat then String "+" (encode r)
      else String "%" (String (hexDigit (n / 16)) (String (hexDigit (n mod 16)) (encode r)))
  end.

(** [new URLSearchParams({ [key]: value }).toString()] *)
Definition toString (key value : string) : string :=
  (encode key ++ "=" ++ encode value)%string.

End URLSearchParams.

(** ** Ordinary objects with string values

    [API_KEYS] is an ordinary object made by [Object.fromEntries]: its own
    properties are kept in creation order, and a property that is not its
    own is looked up in [Object.prototype]. *)

Module JSObject.

Inductive Value : Type :=
| Undefined
| Str (s : string)
| Builtin (name : string).   (* a function or object of the realm *)

Definition truthy (v : Value) : bool :=
  match v with
  | Undefined => false
  | Str s => JSString.truthy s
  | Builtin _ => true
  end.

Definition Obj : Type := list (string * string).

Fixpoint getOwn (o : Obj) (k : string) : option string :=
  match o with
  | [] => None
  | (k', v) :: r => if String.eqb k' k then Some v else getOwn r k
  end.

(** CreateDataProperty: overwrite in place, or add at the end. *)
Fixpoint set (o : Obj) (k v : string) : Obj :=
  match o with
  | [] => [(k, v)]
  | (k', v') :: r => if String.eqb k' k then (k', v) :: r else (k', v') :: set r k v
  end.

(** [Object.fromEntries(entries)] *)
Definition fromEntries (entries : list (string * string)) : Obj :=
  fold_left (fun o kv => set o (fst kv) (snd kv)) entries [].

(** The properties of [Object.prototype] (ECMA-262 20.1.3 and Annex B.2.2). *)
Definition prototypeKeys : list string :=
  ["constructor"; "hasOwnProperty"; "isPrototypeOf"; "propertyIsEnumerable";
   "toLocaleString"; "toString"; "valueOf"; "__proto__";
   "__defineGetter__"; "__defineSetter__"; "__lookupGetter__"; "__lookupSetter__"].

Definition inherited (k : string) : bool :=
  existsb (String.eqb k) prototypeKeys.

(** [o[k]] *)
Definition get (o : Obj) (k : string) : Value :=
  match getOwn o k with
  | Some v => Str v
  | None => if inherited k then Builtin k else Undefined
  end.

(** An array index is a canonical numeric string below 2^32 - 1. *)
Fixpoint allDigits (s : string) : bool :=
  match s with
  | EmptyString => true
  | String c r => is_digit c && allDigits r
  end.

Fixpoint decimal (acc : Z) (s : string) : Z :=
  match s with
  | EmptyString => acc
  | String c r => decimal (10 * acc + digit_val c) r
  end.

Definition arrayIndex (s : string) : option Z :=
  match s with
  | EmptyString => None
  | String c r =>
      if allDigits s && (String.eqb s "0" || negb (Ascii.eqb c "0"))
         && (String.length s <=? 10)%nat && (decimal 0 s <? 4294967295)
      then Some (decimal 0 s) else None
  end.

Definition isIndex (s : string) : bool :=
  match arrayIndex s with Some _ => true | None => false end.

Definition indexOf (s : string) : Z :=
  match arrayIndex s with Some n => n | None => 0 end.

Fixpoint insertIndex (k : string) (l : list string) : list string :=
  match l with
  | [] => [k]
  | k' :: r => if indexOf k <=? indexOf k' then k :: l else k' :: insertIndex k r
  end.

Definition sortIndices (l : list string) : list string :=
  fold_right insertIndex [] l.

(** [Object.keys(o)]: array indices in ascending order, then the other
    keys in creation order. *)
Definition keys (o : Obj) : list string :=
  let ks := map fst o in
  (sortIndices (filter isIndex ks) ++ filter (fun k => negb (isIndex k)) ks)%list.

End JSObject.

(** ** The source: configuration *)

Definition API_KEY_PREFIX : string := "ACTION_NETWORK_API_KEY_".

(** [process.env] as its entries, [Object.entries(process.env)].  An
    environment has every variable name once: [distinctNames]. *)
Definition Env : Type := list (string * string).

Definition distinctNames (env : Env) : Prop := NoDup (map fst env).

Definition API_KEYS (env : Env) : JSObject.Obj :=
  JSObject.fromEntries
    (map (fun kv => (JSString.substringFrom (String.length API_KEY_PREFIX) (fst kv), snd kv))
       (filter (fun kv => JSString.startsWith API_KEY_PREFIX (fst kv)) env)).

(** ** Responses of the application *)

(** Of an Action Network event, the fields the source reads.  [end_date]
    and [location] can be missing from the upstream record. *)
Record Location : Type := { venue : string }.

Record ActionNetworkEvent : Type := {
  start_date : string;
  end_date : option string;
  title : string;
  description : string;
  location : option Location
}.

(** The argument of [calendar.createEvent]. *)
Record ICalEventData : Type := {
  ev_start : DateObject.Date;
  ev_end : DateObject.Date;
  ev_summary : string;
  ev_description : string;
  ev_location : string
}.

(** The calendar of ical-generator, as far as the source builds it. *)
Record ICalCalendar : Type := {
  cal_name : string;
  cal_events : list ICalEventData
}.

Inductive Body : Type :=
| Text (s : string)
| Serialized (c : ICalCalendar).   (* [calendar.toString()] *)

Record Response : Type := {
  status : Z;
  headers : list (string * string);
  body : Body
}.

(** [c.text(s, status)]; [headers] lists the headers the source sets
    itself, not those Hono adds. *)
Definition text (s : string) (st : Z) : Response :=
  {| status := st; headers := []; body := Text s |}.

(** ** The source: [app.get("/directory")] *)

Definition newline : ascii := "010"%char.

Definition directory_handler (keys : JSObject.Obj) : Response :=
  text (JSString.join (String newline EmptyString)
          (map (fun key => ("- " ++ key)%string) (JSObject.keys keys))) 200.

(** ** The upstream

    A request is what [fetch] is called with: the URL and the
    [OSDI-API-Token] header (the method and the content type are
    constants).  What comes back is decided by the environment. *)

Record Request : Type := {
  req_url : string;
  req_token : JSObject.Value
}.

(** The parsed body, [data].  [embedded_events = None]: [data._embedded]
    or its ["osdi:events"] is missing; [links_next = None]: [data._links]
    is missing; [links_next = Some None]: [data._links.next] is missing. *)
Record ActionNetworkEventList : Type := {
  embedded_events : option (list ActionNetworkEvent);
  links_next : option (option string)
}.

Inductive FetchOutcome : Type :=
| NetworkFailure                                        (* [fetch] rejects *)
| NotJson (http_status : Z)                             (* [response.json()] rejects *)
| Json (http_status : Z) (data : ActionNetworkEventList).

(** The world: how often the clock was read, and the requests sent. *)
Record World : Type := {
  ticks : nat;
  requests : list Request
}.

Definition API_URL : string := "https://actionnetwork.org/api/v2/events".

(** ** The source: [fetchAllEventsForCalendar]

    An activation of the async function is suspended at its one [await]
    (the response and its JSON are awaited back to back), fulfilled with
    [events], or rejected. *)

Inductive Fiber : Type :=
| Awaiting (events : list ActionNetworkEvent)
| Fulfilled (events : list ActionNetworkEvent)
| Rejected (e : JSError).

(** The head of the loop body, lines 178-188: read the clock, build the
    query, call [fetch]. *)
Definition sendRequest (h : Host) (token : JSObject.Value) (url : string)
    (events : list ActionNetworkEvent) (w : World) : World * Fiber :=
  let tick := ticks w in
  match JSDate.toISOString (DateObject.now h tick) with
  | Throw e => ({| ticks := S tick; requests := requests w |}, Rejected e)
  | Normal currentDate =>
      let queryParams :=
        URLSearchParams.toString "filter" ("start_date gt '" ++ currentDate ++ "'")%string in
      let request := {| req_url := (url ++ "?" ++ queryParams)%string; req_token := token |} in
      ({| ticks := S tick; requests := (requests w ++ [request])%list |}, Awaiting events)
  end.

(** The rest of the loop body, lines 190-198, and the next head if the
    loop goes on. *)
Definition resume (h : Host) (token : JSObject.Value)
    (events : list ActionNetworkEvent) (o : FetchOutcome) (w : World) : World * Fiber :=
  match o with
  | NetworkFailure => (w, Rejected FetchFailed)
  | NotJson _ => (w, Rejected SyntaxError)
  | Json _ data =>
      match embedded_events data with
      | None => (w, Rejected TypeError)
      | Some batch =>
          let events := (events ++ batch)%list in
          match links_next data with
          | None => (w, Rejected TypeError)
          | Some (Some href) => sendRequest h token href events w
          | Some None => (w, Fulfilled events)
          end
      end
  end.

Fixpoint fetchLoop (h : Host) (token : JSObject.Value)
    (events : list ActionNetworkEvent) (answers : list FetchOutcome) (w : World)
    : World * Fiber :=
  match answers with
  | [] => (w, Awaiting events)
  | o :: rest =>
      match resume h token events o w with
      | (w', Awaiting events') => fetchLoop h token events' rest w'
      | settled => settled
      end
  end.

(** The call up to its first [await]. *)
Definition startFetch (h : Host) (keys : JSObject.Obj) (calendarName : string)
    (w : World) : World * Fiber :=
  sendRequest h (JSObject.get keys calendarName) API_URL [] w.

(** [fetchAllEventsForCalendar(calendarName)], given the answers of the
    upstream to its successive requests. *)
Definition fetchAllEventsForCalendar (h : Host) (keys : JSObject.Obj)
    (calendarName : string) (answers : list FetchOutcome) (w : World) : World * Fiber :=
  match startFetch h keys calendarName w with
  | (w', Awaiting events) => fetchLoop h (JSObject.get keys calendarName) events answers w'
  | settled => settled
  end.

(** ** [Promise.all] over the concurrent activations

    [calendarNames.map(fetchAllEventsForCalendar)] starts the activations
    in order, each running to its first [await].  After that the
    environment decides whose answer arrives next: a schedule is the
    sequence of deliveries. *)

Record Task : Type := {
  task_token : JSObject.Value;
  task_fiber : Fiber
}.

Record Pool : Type := {
  tasks : list Task;
  (** the rejection [Promise.all] settled with, if any: the earliest one *)
  first_rejection : option JSError
}.

Record Delivery : Type := {
  d_feed : nat;             (* position of the feed in [calendarNames] *)
  d_outcome : FetchOutcome
}.

Definition noteRejection (r : option JSError) (f : Fiber) : option JSError :=
  match r, f with
  | None, Rejected e => Some e
  | _, _ => r
  end.

Fixpoint startAll (h : Host) (keys : JSObject.Obj) (calendarNames : list string)
    (p : Pool) (w : World) : World * Pool :=
  match calendarNames with
  | [] => (w, p)
  | name :: rest =>
      let '(w', f) := startFetch h keys name w in
      startAll h keys rest
        {| tasks := (tasks p ++ [ {| task_token := JSObject.get keys name; task_fiber := f |} ])%list;
           first_rejection := noteRejection (first_rejection p) f |} w'
  end.

Fixpoint replace {A} (n : nat) (x : A) (l : list A) : list A :=
  match l, n with
  | [], _ => []
  | _ :: r, O => x :: r
  | y :: r, S k => y :: replace k x r
  end.

(** One answer arrives; an answer for an activation that is not waiting
    cannot arrive, and is skipped. *)
Definition deliver (h : Host) (d : Delivery) (p : Pool) (w : World) : World * Pool :=
  match nth_error (tasks p) (d_feed d) with
  | Some {| task_token := token; task_fiber := Awaiting events |} =>
      let '(w', f) := resume h token events (d_outcome d) w in
      (w', {| tasks := replace (d_feed d) {| task_token := token; task_fiber := f |} (tasks p);
              first_rejection := noteRejection (first_rejection p) f |})
  | _ => (w, p)
  end.

Fixpoint runSchedule (h : Host) (schedule : list Delivery) (p : Pool) (w : World)
    : World * Pool :=
  match schedule with
  | [] => (w, p)
  | d :: rest => let '(w', p') := deliver h d p w in runSchedule h rest p' w'
  end.

(** What an [await] of an async call yields so far. *)
Inductive Outcome (A : Type) : Type :=
| Pending
| Returned (a : A)
| Threw (e : JSError).
Arguments Pending {A}.
Arguments Returned {A} a.
Arguments Threw {A} e.

Fixpoint allFulfilled (ts : list Task) : option (list (list ActionNetworkEvent)) :=
  match ts with
  | [] => Some []
  | t :: r =>
      match task_fiber t, allFulfilled r with
      | Fulfilled events, Some rest => Some (events :: rest)
      | _, _ => None
      end
  end.

(** [await Promise.all(...)]: rejected with the earliest rejection,
    fulfilled with the results in the order of the promises. *)
Definition Promise_all (p : Pool) : Outcome (list (list ActionNetworkEvent)) :=
  match first_rejection p with
  | Some e => Threw e
  | None =>
      match allFulfilled (tasks p) with
      | Some results => Returned results
      | None => Pending
      end
  end.

(** ** The source: [generateICalForFeeds] *)

(** Lines 133-135: [word.charAt(0).toUpperCase() + word.slice(1).toLowerCase()] *)
Definition titleCase (word : string) : string :=
  (JSString.toUpperCase (JSString.charAt0 word)
   ++ JSString.toLowerCase (JSString.slice1 word))%string.

(** Lines 128-136. *)
Definition calendarName (calendarNames : list string)
    (overrideCalendarName : option string) : string :=
  match overrideCalendarName with
  | Some o => if JSString.truthy o then o else
      ("Events for "
       ++ JSString.join " " (map titleCase (JSString.split " " (JSString.join " " calendarNames))))%string
  | None =>
      ("Events for "
       ++ JSString.join " " (map titleCase (JSString.split " " (JSString.join " " calendarNames))))%string
  end.

(** [!event.end_date] *)
Definition end_date_missing (event : ActionNetworkEvent) : bool :=
  match end_date event with
  | Some s => negb (JSString.truthy s)
  | None => true
  end.

Definition set_end_date (event : ActionNetworkEvent) (s : string) : ActionNetworkEvent :=
  {| start_date := start_date event;
     end_date := Some s;
     title := title event;
     description := description event;
     location := location event |}.

(** Lines 142-146: the repair of a missing end date.  The event object is
    assigned to; the result is the object after the statement. *)
Definition repairEndDate (h : Host) (event : ActionNetworkEvent)
    : Completion ActionNetworkEvent :=
  if end_date_missing event then
    let startDate := DateObject.parse h (start_date event) in
    let startDate :=
      DateObject.setHours h startDate
        (option_map (fun hours => hours + 2) (DateObject.getHours h startDate)) in
    iso <-! JSDate.toISOString startDate;
    Normal (set_end_date event iso)
  else Normal event.

(** [new Date(event.end_date)] *)
Definition endDate (h : Host) (event : ActionNetworkEvent) : DateObject.Date :=
  match end_date event with
  | Some s => DateObject.parse h s
  | None => None
  end.

(** Lines 148-154: the argument of [createEvent]. *)
Definition eventData (h : Host) (event : ActionNetworkEvent) : Completion ICalEventData :=
  match location event with
  | None => Throw TypeError
  | Some loc =>
      Normal {| ev_start := DateObject.parse h (start_date event);
                ev_end := endDate h event;
                ev_summary := title event;
                ev_description := description event;
                ev_location := venue loc |}
  end.

(** The callback of [flattened.forEach], lines 140-155, up to the call of
    [createEvent]: the event object afterwards, and the argument
    [createEvent] is called with. *)
Definition normalizeEvent (h : Host) (event : ActionNetworkEvent)
    : Completion (ActionNetworkEvent * ICalEventData) :=
  event' <-! repairEndDate h event;
  data <-! eventData h event';
  Normal (event', data).

(** What the event constructor of ical-generator keeps of the argument of
    [createEvent].  The library is not part of the source; this is its
    behaviour on the five fields the source passes.  It sets [start] and
    then [end]; each setter throws an [Error] when it is given an invalid
    date; and the setter of [end] exchanges the two dates when the start
    is after the end.  The three strings are kept as they are. *)
Definition storedEvent (data : ICalEventData) : Completion ICalEventData :=
  match ev_start data with
  | None => Throw InvalidDateError
  | Some s =>
      match ev_end data with
      | None => Throw InvalidDateError
      | Some e =>
          if e <? s
          then Normal {| ev_start := Some e;
                         ev_end := Some s;
                         ev_summary := ev_summary data;
                         ev_description := ev_description data;
                         ev_location := ev_location data |}
          else Normal data
      end
  end.

(** [calendar.createEvent(data)]: the event is added at the end. *)
Definition createEvent (calendar : ICalCalendar) (data : ICalEventData)
    : Completion ICalCalendar :=
  stored <-! storedEvent data;
  Normal {| cal_name := cal_name calendar;
            cal_events := (cal_events calendar ++ [stored])%list |}.

(** The whole callback of [flattened.forEach], lines 140-155: the event
    object and the calendar afterwards. *)
Definition forEachCallback (h : Host) (calendar : ICalCalendar) (event : ActionNetworkEvent)
    : Completion (ActionNetworkEvent * ICalCalendar) :=
  r <-! normalizeEvent h event;
  calendar' <-! createEvent calendar (snd r);
  Normal (fst r, calendar').

(** [flattened.forEach(...)]: the event objects afterwards, and the calendar. *)
Fixpoint forEachEvent (h : Host) (flattened : list ActionNetworkEvent)
    (calendar : ICalCalendar) : Completion (list ActionNetworkEvent * ICalCalendar) :=
  match flattened with
  | [] => Normal ([], calendar)
  | event :: rest =>
      r <-! forEachCallback h calendar event;
      r' <-! forEachEvent h rest (snd r);
      Normal (fst r :: fst r', snd r')
  end.

(** Lines 126-157: what follows the [await]. *)
Definition buildCalendar (h : Host) (calendarNames : list string)
    (overrideCalendarName : option string) (allEvents : list (list ActionNetworkEvent))
    : Completion ICalCalendar :=
  let flattened := List.concat allEvents in
  let name := calendarName calendarNames overrideCalendarName in
  let calendar := {| cal_name := name; cal_events := [] |} in
  r <-! forEachEvent h flattened calendar;
  Normal (snd r).

Definition initialPool : Pool := {| tasks := []; first_rejection := None |}.

(** Lines 122-124: [await Promise.all(calendarNames.map(fetchAllEventsForCalendar))] *)
Definition awaitAll (h : Host) (keys : JSObject.Obj) (calendarNames : list string)
    (schedule : list Delivery) (w : World)
    : World * Outcome (list (list ActionNetworkEvent)) :=
  let '(w1, p1) := startAll h keys calendarNames initialPool w in
  let '(w2, p2) := runSchedule h schedule p1 w1 in
  (w2, Promise_all p2).

Definition generateICalForFeeds (h : Host) (keys : JSObject.Obj)
    (calendarNames : list string) (overrideCalendarName : option string)
    (schedule : list Delivery) (w : World) : World * Outcome ICalCalendar :=
  let '(w', allEvents) := awaitAll h keys calendarNames schedule w in
  (w',
   match allEvents with
   | Pending => Pending
   | Threw e => Threw e
   | Returned allEvents =>
       match buildCalendar h calendarNames overrideCalendarName allEvents with
       | Normal calendar => Returned calendar
       | Throw e => Threw e
       end
   end).

(** ** The source: [app.get("/events")]

    [nameOverride] is [c.req.query("name")], [feeds] is
    [c.req.queries("feed")]. *)

Definition unconfigured (keys : JSObject.Obj) (feed : string) : bool :=
  negb (JSObject.truthy (JSObject.get keys feed)).

Definition events_handler (h : Host) (keys : JSObject.Obj)
    (nameOverride : option string) (feeds : option (list string))
    (schedule : list Delivery) (w : World) : World * Outcome Response :=
  match feeds with
  | None => (w, Returned (text "No feed query parameters provided." 400))
  | Some feeds =>
      match find (unconfigured keys) feeds with
      | Some feed =>
          (w, Returned (text ("Feed " ++ feed ++ " is not configured in API keys.")%string 400))
      | None =>
          let '(w', r) := generateICalForFeeds h keys feeds nameOverride schedule w in
          (w',
           match r with
           | Pending => Pending
           | Threw e => Threw e
           | Returned calendar =>
               Returned {| status := 200;
                           headers := [("Content-Type", "text/calendar");
                                       ("Content-Disposition", "attachment; filename=events.ics")];
                           body := Serialized calendar |}
           end)
      end
  end.

(** ** Predicates of the statements *)

(** The local time zone keeps one offset from UTC. *)
Definition fixedZone (h : Host) (offset : Z) : Prop :=
  forall t isUTC, LocalTZA h t isUTC = offset.

(** The offsets of the local time zone differ by less than two hours. *)
Definition zoneDriftBelowTwoHours (h : Host) : Prop :=
  forall t u, LocalTZA h u false - LocalTZA h t true < 2 * JSDate.msPerHour.

(** The system clock shows a time a [Date] can hold. *)
Definition clockValid (h : Host) : Prop :=
  forall n, Z.abs (clock h n) <= JSDate.maxTime.

(** What [setHours(getHours() + 2)] makes of the time value [t]. *)
Definition twoHoursLater (h : Host) (t : Z) : DateObject.Date :=
  JSDate.TimeClip (DateObject.UTC h (DateObject.LocalTime h t + 2 * JSDate.msPerHour)).

(** ** Concrete hosts and inputs of the examples *)

(** A host on UTC whose clock stands at 2024-06-01T10:00:00Z. *)
Definition utcHost : Host :=
  {| LocalTZA := fun _ _ => 0;
     legacyDateParse := fun _ => None;
     clock := fun _ => 1717236000000 |}.

(** A host on US Eastern time in 2024: UTC-5, and UTC-4 between
    2024-03-10T07:00Z and 2024-11-03T06:00Z.  A local time that is skipped
    or repeated takes the offset from before the transition (ECMA-262). *)
Definition easternLocalTZA (t : Z) (isUTC : bool) : Z :=
  let dst :=
    if isUTC then (1710054000000 <=? t) && (t <? 1730613600000)
    else (1710039600000 <=? t) && (t <? 1730599200000) in
  if dst then -4 * JSDate.msPerHour else -5 * JSDate.msPerHour.

Definition easternHost : Host :=
  {| LocalTZA := easternLocalTZA;
     legacyDateParse := fun _ => None;
     clock := fun _ => 1717236000000 |}.

Definition world0 : World := {| ticks := 0; requests := [] |}.

Definition someVenue : option Location := Some {| venue := "Town Hall" |}.

(** An event without end date, starting 2024-06-01T10:00:00Z. *)
Definition openEndedEvent : ActionNetworkEvent :=
  {| start_date := "2024-06-01T10:00:00Z"; end_date := None;
     title := "Canvass"; description := "Door knocking"; location := someVenue |}.

(** An event without end date, starting 2024-03-10T06:30:00Z: 01:30 on US
    Eastern time, half an hour before the clocks go forward. *)
Definition springForwardEvent : ActionNetworkEvent :=
  {| start_date := "2024-03-10T06:30:00Z"; end_date := None;
     title := "Night shift"; description := "Phone bank"; location := someVenue |}.

(** An event whose upstream end date is before its start. *)
Definition backwardsEvent : ActionNetworkEvent :=
  {| start_date := "2024-06-01T10:00:00Z"; end_date := Some "2024-06-01T09:00:00Z";
     title := "Rally"; description := "Main square"; location := someVenue |}.

(** An event with both dates. *)
Definition closedEvent : ActionNetworkEvent :=
  {| start_date := "2024-06-01T10:00:00Z"; end_date := Some "2024-06-01T11:30:00Z";
     title := "Meeting"; description := "Monthly"; location := someVenue |}.

(** An event without location. *)
Definition placelessEvent : ActionNetworkEvent :=
  {| start_date := "2024-06-01T10:00:00Z"; end_date := Some "2024-06-01T11:30:00Z";
     title := "Call"; description := "Online"; location := None |}.

Definition oneKey : JSObject.Obj := [("TEAM_A", "secret-a")].
Definition twoKeys : JSObject.Obj := [("TEAM_A", "secret-a"); ("TEAM_B", "secret-b")].

Definition lastPage (events : list ActionNetworkEvent) : ActionNetworkEventList :=
  {| embedded_events := Some events; links_next := Some None |}.

Definition pageWithNext (events : list ActionNetworkEvent) (href : string)
    : ActionNetworkEventList :=
  {| embedded_events := Some events; links_next := Some (Some href) |}.


(** One feed answering with a single page whose second event has no location. *)
Definition placelessSchedule : list Delivery :=
  [ {| d_feed := 0; d_outcome := Json 200 (lastPage [closedEvent; placelessEvent]) |} ].

(** ** Pagination, as the statements describe it *)

(** The batch of a page. *)
Definition batchOf (page : ActionNetworkEventList) : list ActionNetworkEvent :=
  match embedded_events page with
  | Some batch => batch
  | None => []
  end.

(** A feed paginated across [pages]: every page carries a batch, every
    page but the last a next-page link, and the last none. *)
Fixpoint paginated (pages : list ActionNetworkEventList) : bool :=
  match pages with
  | [] => false
  | page :: rest =>
      match embedded_events page, links_next page, rest with
      | Some _, Some None, [] => true
      | Some _, Some (Some _), _ :: _ => paginated rest
      | _, _, _ => false
      end
  end.

(** The addresses the pages are to be asked at: the listing endpoint, then
    each next-page link. *)
Fixpoint targets (url : string) (pages : list ActionNetworkEventList) : list string :=
  match pages with
  | [] => []
  | page :: rest =>
      url :: match links_next page with
             | Some (Some href) => targets href rest
             | _ => []
             end
  end.

(** A request for [target] with [token]: the address followed by a query. *)
Definition requestFor (token : JSObject.Value) (target : string) (r : Request) : Prop :=
  req_token r = token /\ exists query, req_url r = (target ++ "?" ++ query)%string.

(** An answer the loop body cannot take a batch and a link from. *)
Definition malformed (o : FetchOutcome) : bool :=
  match o with
  | NetworkFailure => true
  | NotJson _ => true
  | Json _ data =>
      match embedded_events data, links_next data with
      | Some _, Some _ => false
      | _, _ => true
      end
  end.

(** The answers of a schedule that go to the feed at position [i]. *)
Definition answersFor (i : nat) (schedule : list Delivery) : list FetchOutcome :=
  map d_outcome (filter (fun d => Nat.eqb (d_feed d) i) schedule).

Definition eventsOf (f : Fiber) : list ActionNetworkEvent :=
  match f with
  | Awaiting events => events
  | Fulfilled events => events
  | Rejected _ => []
  end.

(** [l.map((x, i) => f(i, x))], counting from [i]. *)
Fixpoint imapFrom {A B} (f : nat -> A -> B) (i : nat) (l : list A) : list B :=
  match l with
  | [] => []
  | x :: r => f i x :: imapFrom f (S i) r
  end.

(** What each feed alone comes to on the answers it was sent, in the order
    of [calendarNames]. *)
Definition perFeedEvents (h : Host) (keys : JSObject.Obj) (calendarNames : list string)
    (schedule : list Delivery) : list (list ActionNetworkEvent) :=
  imapFrom (fun i name =>
              eventsOf (snd (fetchAllEventsForCalendar h keys name
                               (answersFor i schedule) world0)))
           0%nat calendarNames.

(** An activation taken further by [answers]. *)
Definition continueFiber (h : Host) (token : JSObject.Value) (f : Fiber)
    (answers : list FetchOutcome) : Fiber :=
  match f with
  | Awaiting events => snd (fetchLoop h token events answers world0)
  | _ => f
  end.

Definition advance (h : Host) (answers : list FetchOutcome) (t : Task) : Task :=
  {| task_token := task_token t;
     task_fiber := continueFiber h (task_token t) (task_fiber t) answers |}.

(** The pool after the activations were started and [schedule] was played. *)
Definition poolAfter (h : Host) (keys : JSObject.Obj) (calendarNames : list string)
    (schedule : list Delivery) (w : World) : Pool :=
  let '(w1, p1) := startAll h keys calendarNames initialPool w in
  snd (runSchedule h schedule p1 w1).

Definition waiting (p : Pool) (i : nat) : bool :=
  match nth_error (tasks p) i with
  | Some {| task_fiber := Awaiting _ |} => true
  | _ => false
  end.


(** [stored] is the calendar event the callback of [forEach] makes of
    [event]: what [createEvent] keeps of the argument built from it. *)
Definition storedFrom (h : Host) (event : ActionNetworkEvent) (stored : ICalEventData)
    : Prop :=
  exists event' data,
    normalizeEvent h event = Normal (event', data) /\ storedEvent data = Normal stored.


(** A feed of two pages. *)
Definition twoPages : list ActionNetworkEventList :=
  [ pageWithNext [openEndedEvent] "https://actionnetwork.org/api/v2/events?page=2";
    lastPage [closedEvent] ].

(** Two feeds: [TEAM_A] answers slowly and in two pages, [TEAM_B] at once. *)
Definition slowFastSchedule : list Delivery :=
  [ {| d_feed := 1; d_outcome := Json 200 (lastPage [backwardsEvent]) |};
    {| d_feed := 0;
       d_outcome := Json 200 (pageWithNext [openEndedEvent]
                                "https://actionnetwork.org/api/v2/events?page=2") |};
    {| d_feed := 0; d_outcome := Json 200 (lastPage [closedEvent]) |} ].

Definition emptyCalendar : ICalCalendar := {| cal_name := EmptyString; cal_events := [] |}.

Definition slowFastCalendar : ICalCalendar :=
  Eval vm_compute in
    match snd (generateICalForFeeds utcHost twoKeys ["TEAM_A"; "TEAM_B"] None
                 slowFastSchedule world0) with
    | Returned calendar => calendar
    | _ => emptyCalendar
    end.

Definition slowFastWorld : World :=
  Eval vm_compute in
    fst (generateICalForFeeds utcHost twoKeys ["TEAM_A"; "TEAM_B"] None
           slowFastSchedule world0).

(** ** Further predicates of the statements *)

(** An answer that is a page, with its HTTP status. *)
Definition pageAnswer (sp : Z * ActionNetworkEventList) : FetchOutcome :=
  Json (fst sp) (snd sp).

(** Lines 178-188 at the [n]-th reading of the clock: the request sent to
    [url]. *)
Definition requestAt (h : Host) (token : JSObject.Value) (url : string) (n : nat) : Request :=
  {| req_url :=
       (url ++ "?"
        ++ URLSearchParams.toString "filter"
             ("start_date gt '" ++ JSDate.formatISO (clock h n) ++ "'"))%string;
     req_token := token |}.

(** The end lines 143-145 compute for an event without end date. *)
Definition repairedEnd (h : Host) (event : ActionNetworkEvent) : DateObject.Date :=
  match DateObject.parse h (start_date event) with
  | Some t => twoHoursLater h t
  | None => None
  end.

(** The characters a serialized query consists of. *)
Definition urlSafe (c : ascii) : bool :=
  URLSearchParams.unreserved c || Ascii.eqb c "+" || Ascii.eqb c "%".

Fixpoint allChars (p : ascii -> bool) (s : string) : bool :=
  match s with
  | EmptyString => true
  | String c r => p c && allChars p r
  end.

(** The exception an unusable answer ends the loop with. *)
Definition errorOf (o : FetchOutcome) : JSError :=
  match o with
  | NetworkFailure => FetchFailed
  | NotJson _ => SyntaxError
  | Json _ _ => TypeError
  end.

(** The end of an event as the callback passes it on: the repaired end
    when the end date is missing, what the end date parses to otherwise. *)
Definition normalizedEnd (h : Host) (event : ActionNetworkEvent) : DateObject.Date :=
  if end_date_missing event then repairedEnd h event else endDate h event.

(** [stored] has the strings of [event] as they are, and its two valid
    dates in order. *)
Definition storedFields (h : Host) (event : ActionNetworkEvent) (stored : ICalEventData)
    : Prop :=
  ev_summary stored = title event
  /\ ev_description stored = description event
  /\ (exists loc, location event = Some loc /\ ev_location stored = venue loc)
  /\ exists s e,
       DateObject.parse h (start_date event) = Some s
       /\ normalizedEnd h event = Some e
       /\ ev_start stored = Some (Z.min s e)
       /\ ev_end stored = Some (Z.max s e).

(** Two answers that differ in the HTTP status at most. *)
Definition sameButStatus (o o' : FetchOutcome) : Prop :=
  match o, o' with
  | NetworkFailure, NetworkFailure => True
  | NotJson _, NotJson _ => True
  | Json _ data, Json _ data' => data = data'
  | _, _ => False
  end.

Definition sameDeliveryButStatus (d d' : Delivery) : Prop :=
  d_feed d = d_feed d' /\ sameButStatus (d_outcome d) (d_outcome d').

(** A token the validation of the handler lets through for [feeds]. *)
Definition validatedToken (keys : JSObject.Obj) (feeds : list string)
    (token : JSObject.Value) : Prop :=
  JSObject.truthy token = true
  /\ exists feed, In feed feeds /\ token = JSObject.get keys feed.

(** The name of the environment variable of a feed. *)
Definition variableOf (feed : string) : string := (API_KEY_PREFIX ++ feed)%string.

(** One step of [Object.fromEntries]. *)
Definition putEntry (o : JSObject.Obj) (kv : string * string) : JSObject.Obj :=
  JSObject.set o (fst kv) (snd kv).

(** The entries [API_KEYS] is made from. *)
Definition keyEntries (env : Env) : list (string * string) :=
  map (fun kv => (JSString.substringFrom (String.length API_KEY_PREFIX) (fst kv), snd kv))
    (filter (fun kv => JSString.startsWith API_KEY_PREFIX (fst kv)) env).

(** [w'] has the log of [w] and at most [n] more requests, all with a
    token in [P]. *)
Definition extendsWith (P : JSObject.Value -> Prop) (n : nat) (w w' : World) : Prop :=
  exists new,
    requests w' = (requests w ++ new)%list
    /\ (List.length new <= n)%nat
    /\ Forall (fun r => P (req_token r)) new.

Definition tokensInWith (P : JSObject.Value -> Prop) (p : Pool) : Prop :=
  Forall (fun t => P (task_token t)) (tasks p).

(* ================================================================== *)
(** * Part II: properties                                               *)
(* ================================================================== *)

(** ** The built-ins at known values *)

Example toISOString_2024 :
  JSDate.toISOString (Some 1717236000000) = Normal "2024-06-01T10:00:00.000Z".
Proof. reflexivity. Qed.

Example toISOString_first_instant :
  JSDate.toISOString (Some (- 8640000000000000)) = Normal "-271821-04-20T00:00:00.000Z".
Proof. reflexivity. Qed.

Example toISOString_last_instant :
  JSDate.toISOString (Some 8640000000000000) = Normal "+275760-09-13T00:00:00.000Z".
Proof. reflexivity. Qed.

Example toISOString_invalid : JSDate.toISOString None = Throw RangeError.
Proof. reflexivity. Qed.

Example parse_action_network_date :
  DateObject.parse utcHost "2024-06-01T10:00:00Z" = Some 1717236000000.
Proof. reflexivity. Qed.

Example parse_leap_day :
  DateObject.parse utcHost "2024-02-29T23:59:59.999Z" = Some 1709251199999.
Proof. reflexivity. Qed.

Example parse_unrecognised : DateObject.parse utcHost "next Tuesday" = None.
Proof. reflexivity. Qed.

Example getHours_eastern :
  DateObject.getHours easternHost (Some 1710052200000) = Some 1.
Proof. reflexivity. Qed.

Example setHours_across_midnight :
  DateObject.setHours utcHost (Some 1717282800000) (Some 25) = Some 1717290000000.
Proof. reflexivity. Qed.

Example query_of_the_fetch :
  URLSearchParams.toString "filter" "start_date gt '2024-06-01T10:00:00.000Z'"
  = "filter=start_date+gt+%272024-06-01T10%3A00%3A00.000Z%27".
Proof. reflexivity. Qed.

Example split_spaces : JSString.split " " "a  b " = ["a"; ""; "b"; ""].
Proof. reflexivity. Qed.

Example split_empty : JSString.split " " "" = [""].
Proof. reflexivity. Qed.

Example titleCase_upper : titleCase "TEAM_A" = "Team_a".
Proof. reflexivity. Qed.

Example keys_order :
  JSObject.keys (API_KEYS [("ACTION_NETWORK_API_KEY_TEAM_A", "a"); ("HOME", "/root");
                           ("ACTION_NETWORK_API_KEY_10", "b");
                           ("ACTION_NETWORK_API_KEY_2", "c")])
  = ["2"; "10"; "TEAM_A"].
Proof. reflexivity. Qed.

Example lookup_own : JSObject.get oneKey "TEAM_A" = JSObject.Str "secret-a".
Proof. reflexivity. Qed.

Example lookup_missing : JSObject.get oneKey "TEAM_B" = JSObject.Undefined.
Proof. reflexivity. Qed.

Example lookup_inherited : JSObject.get oneKey "toString" = JSObject.Builtin "toString".
Proof. reflexivity. Qed.

Example directory_of_two :
  directory_handler twoKeys
  = text (String.append "- TEAM_A" (String newline "- TEAM_B")) 200.
Proof. reflexivity. Qed.

Example unknown_feed_rejected :
  events_handler utcHost oneKey None (Some ["TEAM_A"; "TEAM_C"]) [] world0
  = (world0, Returned (text "Feed TEAM_C is not configured in API keys." 400)).
Proof. reflexivity. Qed.

Example no_feed_rejected :
  events_handler utcHost oneKey None None [] world0
  = (world0, Returned (text "No feed query parameters provided." 400)).
Proof. reflexivity. Qed.

(** The requests of a two-page fetch: the query is appended to the
    next-page link as it is. *)
Example two_page_requests :
  fetchAllEventsForCalendar utcHost oneKey "TEAM_A" (map (Json 200) twoPages) world0
  = ({| ticks := 2;
        requests :=
          [ {| req_url := "https://actionnetwork.org/api/v2/events?filter=start_date+gt+%272024-06-01T10%3A00%3A00.000Z%27";
               req_token := JSObject.Str "secret-a" |};
            {| req_url := "https://actionnetwork.org/api/v2/events?page=2?filter=start_date+gt+%272024-06-01T10%3A00%3A00.000Z%27";
               req_token := JSObject.Str "secret-a" |} ] |},
     Fulfilled [openEndedEvent; closedEvent]).
Proof. reflexivity. Qed.

(** Two feeds, the second answering first: the calendar has the events of
    the first feed first.  The last event came with its end before its
    start, and is stored with the two exchanged. *)
Example slow_and_fast :
  snd (generateICalForFeeds utcHost twoKeys ["TEAM_A"; "TEAM_B"] None slowFastSchedule world0)
  = Returned
      {| cal_name := "Events for Team_a Team_b";
         cal_events :=
           [ {| ev_start := Some 1717236000000; ev_end := Some 1717243200000;
                ev_summary := "Canvass"; ev_description := "Door knocking";
                ev_location := "Town Hall" |};
             {| ev_start := Some 1717236000000; ev_end := Some 1717241400000;
                ev_summary := "Meeting"; ev_description := "Monthly";
                ev_location := "Town Hall" |};
             {| ev_start := Some 1717232400000; ev_end := Some 1717236000000;
                ev_summary := "Rally"; ev_description := "Main square";
                ev_location := "Town Hall" |} ] |}.
Proof. reflexivity. Qed.

(** An event whose start date does not parse is refused by [createEvent]. *)
Example invalid_start_refused :
  forEachCallback utcHost emptyCalendar
    {| start_date := "soon"; end_date := Some "2024-06-01T11:30:00Z";
       title := "Meeting"; description := "Monthly"; location := someVenue |}
  = Throw InvalidDateError.
Proof. reflexivity. Qed.

(** ** Decimal fields *)

Lemma digit_cases (d : Z) :
  0 <= d < 10 ->
  d = 0 \/ d = 1 \/ d = 2 \/ d = 3 \/ d = 4 \/ d = 5 \/ d = 6 \/ d = 7 \/ d = 8 \/ d = 9.
Proof. lia. Qed.

Lemma digit_char_spec (d : Z) :
  0 <= d < 10 ->
  is_digit (digit_char d) = true /\ digit_val (digit_char d) = d
  /\ Ascii.eqb (digit_char d) "+" = false /\ Ascii.eqb (digit_char d) "-" = false.
Proof.
  intros H. destruct (digit_cases d H) as [E|[E|[E|[E|[E|[E|[E|[E|[E|E]]]]]]]]];
    subst d; repeat split; reflexivity.
Qed.

Lemma read_digits_snoc (k : nat) : forall acc s,
  read_digits (S k) acc s =
  match read_digits k acc s with
  | Some (a, String c r) => if is_digit c then Some (10 * a + digit_val c, r) else None
  | _ => None
  end.
Proof.
  induction k as [|k IH]; intros acc s.
  - destruct s as [|c r]; reflexivity.
  - destruct s as [|c r]; [reflexivity|].
    change (read_digits (S (S k)) acc (String c r))
      with (if is_digit c then read_digits (S k) (10 * acc + digit_val c) r else None).
    change (read_digits (S k) acc (String c r))
      with (if is_digit c then read_digits k (10 * acc + digit_val c) r else None).
    destruct (is_digit c); [apply IH|reflexivity].
Qed.

Lemma read_digits_digits (n : nat) : forall v acc rest,
  0 <= v < 10 ^ Z.of_nat n ->
  read_digits n acc (digits n v rest) = Some (acc * 10 ^ Z.of_nat n + v, rest).
Proof.
  induction n as [|n IH]; intros v acc rest Hv.
  - cbn. f_equal. f_equal. change (10 ^ Z.of_nat 0) with 1 in Hv. lia.
  - rewrite read_digits_snoc.
    change (digits (S n) v rest) with (digits n (v / 10) (String (digit_char (v mod 10)) rest)).
    assert (Hpow : 10 ^ Z.of_nat (S n) = 10 * 10 ^ Z.of_nat n).
    { rewrite Nat2Z.inj_succ, Z.pow_succ_r by lia. reflexivity. }
    rewrite Hpow in *.
    assert (Hq : 0 <= v / 10 < 10 ^ Z.of_nat n).
    { split; [apply Z.div_pos; lia | apply Z.div_lt_upper_bound; lia]. }
    rewrite (IH _ acc _ Hq).
    destruct (digit_char_spec (v mod 10)) as (Hd & Hval & _).
    { apply Z.mod_pos_bound; lia. }
    rewrite Hd, Hval. f_equal. f_equal.
    pose proof (Z.div_mod v 10). lia.
Qed.

(** ** The calendar arithmetic of [Date] *)

Section DateFacts.
Import JSDate.

Lemma YearFromDay_spec (d : Z) :
  DayFromYear (YearFromDay d) <= d < DayFromYear (YearFromDay d + 1).
Proof.
  unfold YearFromDay.
  set (y := 1970 + d * 400 / 146097).
  assert (Hlo : DayFromYear (y - 1) <= d)
    by (subst y; unfold DayFromYear; Z.div_mod_to_equations; lia).
  assert (Hhi : d < DayFromYear (y + 2))
    by (subst y; unfold DayFromYear; Z.div_mod_to_equations; lia).
  destruct (Z.ltb_spec d (DayFromYear y)).
  - replace (y - 1 + 1) with y by lia. lia.
  - destruct (Z.leb_spec (DayFromYear (y + 1)) d).
    + replace (y + 1 + 1) with (y + 2) by lia. lia.
    + lia.
Qed.

Lemma DayFromYear_succ (y : Z) :
  DayFromYear (y + 1) = DayFromYear y + (if isLeapYear y then 366 else 365).
Proof.
  unfold DayFromYear, isLeapYear.
  destruct (Z.eqb_spec (y mod 4) 0), (Z.eqb_spec (y mod 100) 0), (Z.eqb_spec (y mod 400) 0);
    cbn [andb orb negb]; Z.div_mod_to_equations; lia.
Qed.

Lemma DayWithinYear_bounds (t : Z) :
  0 <= DayWithinYear t < 365 + InLeapYear t.
Proof.
  unfold DayWithinYear, InLeapYear, YearFromTime.
  pose proof (YearFromDay_spec (Day t)) as H.
  rewrite DayFromYear_succ in H.
  destruct (isLeapYear (YearFromDay (Day t))); lia.
Qed.

Lemma monthOfDay_spec (leap d : Z) :
  (leap = 0 \/ leap = 1) -> 0 <= d < 365 + leap ->
  let m := monthOfDay leap d in
  0 <= m <= 11 /\ monthStart leap m <= d < monthStart leap (m + 1).
Proof.
  intros Hl Hd. unfold monthOfDay.
  destruct Hl; subst leap;
    repeat match goal with
           | |- context [?a <? ?b] => destruct (Z.ltb_spec a b)
           end; cbn in *; lia.
Qed.

Lemma MakeTime_FromTime (t : Z) :
  MakeTime (HourFromTime t) (MinFromTime t) (SecFromTime t) (msFromTime t) = TimeWithinDay t.
Proof.
  unfold MakeTime, HourFromTime, MinFromTime, SecFromTime, msFromTime, TimeWithinDay,
    msPerHour, msPerMinute, msPerSecond, msPerDay.
  Z.div_mod_to_equations. lia.
Qed.

Lemma FromTime_bounds (t : Z) :
  0 <= HourFromTime t <= 23 /\ 0 <= MinFromTime t <= 59 /\ 0 <= SecFromTime t <= 59
  /\ 0 <= msFromTime t <= 999.
Proof.
  unfold HourFromTime, MinFromTime, SecFromTime, msFromTime, msPerSecond.
  Z.div_mod_to_equations. lia.
Qed.

Lemma MakeDate_Day (t : Z) : MakeDate (Day t) (TimeWithinDay t) = t.
Proof.
  unfold MakeDate, Day, TimeWithinDay, msPerDay. Z.div_mod_to_equations. lia.
Qed.

Lemma MakeDay_FromTime (t : Z) :
  MakeDay (YearFromTime t) (MonthFromTime t) (DateFromTime t) = Day t.
Proof.
  pose proof (DayWithinYear_bounds t) as Hb.
  assert (Hl : InLeapYear t = 0 \/ InLeapYear t = 1)
    by (unfold InLeapYear; destruct (isLeapYear _); lia).
  pose proof (monthOfDay_spec _ _ Hl Hb) as (Hm & _). cbn zeta in Hm.
  unfold MakeDay, DateFromTime. fold (MonthFromTime t) in Hm.
  rewrite Z.div_small, Z.mod_small, Z.add_0_r by lia.
  fold (InLeapYear t). unfold DayWithinYear. lia.
Qed.

Lemma DateFromTime_bounds (t : Z) :
  0 <= MonthFromTime t <= 11
  /\ 1 <= DateFromTime t <= daysInMonth (YearFromTime t) (MonthFromTime t).
Proof.
  pose proof (DayWithinYear_bounds t) as Hb.
  assert (Hl : InLeapYear t = 0 \/ InLeapYear t = 1)
    by (unfold InLeapYear; destruct (isLeapYear _); lia).
  pose proof (monthOfDay_spec _ _ Hl Hb) as (Hm & Hs). cbn zeta in Hm, Hs.
  fold (MonthFromTime t) in Hm, Hs.
  unfold DateFromTime, daysInMonth. fold (InLeapYear t). lia.
Qed.

Lemma YearFromTime_range (t : Z) :
  Z.abs t <= maxTime -> -271821 <= YearFromTime t <= 275760.
Proof.
  intros Ht. unfold YearFromTime.
  pose proof (YearFromDay_spec (Day t)) as H.
  assert (Hd : -100000000 <= Day t <= 100000000)
    by (unfold Day, msPerDay, maxTime in *; Z.div_mod_to_equations; lia).
  unfold DayFromYear in H. Z.div_mod_to_equations. lia.
Qed.

End DateFacts.

(** ** [Date.parse] after [toISOString] *)

Section ISORoundTrip.
Import JSDate.

Lemma readYear_yearString (y : Z) (rest : string) :
  -999999 <= y <= 999999 ->
  readYear (yearString y rest) = Some (y, rest).
Proof.
  intros Hy. unfold yearString.
  destruct (Z.leb_spec 0 y) as [Hpos|Hneg]; cbn [andb].
  - destruct (Z.leb_spec y 9999) as [Hs|Hl].
    + assert (H4 : 0 <= y < 10 ^ Z.of_nat 4) by (change (10 ^ Z.of_nat 4) with 10000; lia).
      pose proof (read_digits_digits 4 y 0 rest H4) as R.
      revert R. cbn [digits]. intros R.
      unfold readYear.
      destruct (digit_char_spec (y / 10 / 10 / 10 mod 10)) as (_ & _ & Hp & Hm);
        [apply Z.mod_pos_bound; lia|].
      rewrite Hp, Hm. rewrite R. reflexivity.
    + assert (H6 : 0 <= y < 10 ^ Z.of_nat 6) by (change (10 ^ Z.of_nat 6) with 1000000; lia).
      unfold readYear. cbn [Ascii.eqb Bool.eqb].
      rewrite (read_digits_digits 6 y 0 rest H6). reflexivity.
  - assert (H6 : 0 <= - y < 10 ^ Z.of_nat 6) by (change (10 ^ Z.of_nat 6) with 1000000; lia).
    unfold readYear. cbn [Ascii.eqb Bool.eqb].
    rewrite (read_digits_digits 6 (- y) 0 rest H6).
    destruct (Z.eqb_spec (0 * 10 ^ Z.of_nat 6 + - y) 0); [lia|].
    f_equal. f_equal. lia.
Qed.

Lemma read2 (v : Z) (rest : string) :
  0 <= v <= 99 -> read_digits 2 0 (digits 2 v rest) = Some (v, rest).
Proof.
  intros Hv. rewrite read_digits_digits by (change (10 ^ Z.of_nat 2) with 100; lia).
  reflexivity.
Qed.

Lemma read3 (v : Z) (rest : string) :
  0 <= v <= 999 -> read_digits 3 0 (digits 3 v rest) = Some (v, rest).
Proof.
  intros Hv. rewrite read_digits_digits by (change (10 ^ Z.of_nat 3) with 1000; lia).
  reflexivity.
Qed.

Lemma daysInMonth_le_31 (y m : Z) : 0 <= m <= 11 -> daysInMonth y m <= 31.
Proof.
  intros Hm. unfold daysInMonth.
  assert (m = 0 \/ m = 1 \/ m = 2 \/ m = 3 \/ m = 4 \/ m = 5 \/ m = 6 \/ m = 7 \/ m = 8
          \/ m = 9 \/ m = 10 \/ m = 11) as C by lia.
  destruct (isLeapYear y);
    destruct C as [E|[E|[E|[E|[E|[E|[E|[E|[E|[E|[E|E]]]]]]]]]]]; subst m; cbn; lia.
Qed.

(** [Date.parse] gives back the time value [toISOString] was given. *)
Lemma parseISO_formatISO (t : Z) :
  Z.abs t <= maxTime -> parseISO (formatISO t) = Some (Some t).
Proof.
  intros Ht.
  pose proof (YearFromTime_range t Ht) as Hy.
  pose proof (DateFromTime_bounds t) as (Hm & Hd).
  pose proof (daysInMonth_le_31 (YearFromTime t) _ Hm) as H31.
  pose proof (FromTime_bounds t) as (Hh & Hmi & Hs & Hms).
  unfold parseISO, formatISO.
  rewrite readYear_yearString by lia.
  cbn [expect Ascii.eqb Bool.eqb]. rewrite read2 by lia.
  cbn [expect Ascii.eqb Bool.eqb]. rewrite read2 by lia.
  cbn [expect Ascii.eqb Bool.eqb]. rewrite read2 by lia.
  cbn [expect Ascii.eqb Bool.eqb]. rewrite read2 by lia.
  cbn [expect Ascii.eqb Bool.eqb]. rewrite read2 by lia.
  cbn [readMillis]. rewrite read3 by lia.
  replace (MonthFromTime t + 1 - 1) with (MonthFromTime t) by lia.
  rewrite MakeDay_FromTime, MakeTime_FromTime, MakeDate_Day.
  repeat match goal with
         | |- context [?a <=? ?b] =>
             destruct (Z.leb_spec a b); [|lia]
         end.
  cbn [andb]. unfold TimeClip.
  destruct (Z.leb_spec (Z.abs t) maxTime); [reflexivity|lia].
Qed.

End ISORoundTrip.

(** ** The repair of a missing end date *)

Section Repair.
Import JSDate DateObject.
Variable h : Host.

Lemma setHours_plus_two (t : Z) :
  setHours h (Some t) (option_map (fun hours => hours + 2) (getHours h (Some t)))
  = twoHoursLater h t.
Proof.
  unfold setHours, getHours, twoHoursLater. cbn [option_map].
  f_equal. f_equal.
  set (t' := LocalTime h t).
  pose proof (MakeDate_Day t') as E. rewrite <- MakeTime_FromTime in E.
  unfold MakeDate, MakeTime, msPerHour in *. lia.
Qed.

Lemma twoHoursLater_fixedZone (offset t : Z) :
  fixedZone h offset -> twoHoursLater h t = TimeClip (t + 7200000).
Proof.
  intros Hz. unfold twoHoursLater, UTC, LocalTime. rewrite !Hz.
  f_equal. unfold msPerHour. lia.
Qed.

Lemma twoHoursLater_after (t u : Z) :
  zoneDriftBelowTwoHours h -> twoHoursLater h t = Some u -> t < u.
Proof.
  intros Hz. unfold twoHoursLater, TimeClip.
  destruct (Z.abs _ <=? maxTime); [|discriminate].
  intros [= <-]. unfold UTC, LocalTime.
  specialize (Hz t (t + LocalTZA h t true + 2 * msPerHour)).
  change (2 * msPerHour) with 7200000 in *. lia.
Qed.

Lemma TimeClip_Some (t u : Z) : TimeClip t = Some u -> u = t /\ Z.abs u <= maxTime.
Proof.
  unfold TimeClip. destruct (Z.leb_spec (Z.abs t) maxTime); [|discriminate].
  intros [= <-]. auto.
Qed.

Lemma parse_formatISO (u : Z) : Z.abs u <= maxTime -> parse h (formatISO u) = Some u.
Proof. intros Hu. unfold parse. rewrite parseISO_formatISO by assumption. reflexivity. Qed.

(** The statement of lines 142-146 on an event without end date. *)
Lemma repairEndDate_missing (event : ActionNetworkEvent) :
  end_date_missing event = true ->
  repairEndDate h event =
  match parse h (start_date event) with
  | Some t =>
      match twoHoursLater h t with
      | Some u => Normal (set_end_date event (formatISO u))
      | None => Throw RangeError
      end
  | None => Throw RangeError
  end.
Proof.
  intros Hm. unfold repairEndDate. rewrite Hm.
  destruct (parse h (start_date event)) as [t|]; [|reflexivity].
  rewrite setHours_plus_two.
  destruct (twoHoursLater h t); reflexivity.
Qed.

Lemma repairEndDate_present (event : ActionNetworkEvent) :
  end_date_missing event = false -> repairEndDate h event = Normal event.
Proof. intros Hp. unfold repairEndDate. rewrite Hp. reflexivity. Qed.

(** What [createEvent] gets for an event without end date. *)
Lemma normalizeEvent_missing (event event' : ActionNetworkEvent) (data : ICalEventData) :
  end_date_missing event = true ->
  normalizeEvent h event = Normal (event', data) ->
  exists t u,
    parse h (start_date event) = Some t /\ twoHoursLater h t = Some u
    /\ event' = set_end_date event (formatISO u)
    /\ ev_start data = Some t /\ ev_end data = Some u.
Proof.
  intros Hm. unfold normalizeEvent. rewrite (repairEndDate_missing _ Hm).
  destruct (parse h (start_date event)) as [t|] eqn:Ht; [|discriminate].
  destruct (twoHoursLater h t) as [u|] eqn:Hu; [|discriminate].
  cbn [bindC]. unfold eventData. cbn [location set_end_date].
  destruct (location event) as [loc|]; [|discriminate].
  cbn [bindC]. intros [= <- <-]. exists t, u.
  cbn [ev_start ev_end start_date set_end_date endDate end_date].
  pose proof (TimeClip_Some _ _ Hu) as (_ & Hb).
  rewrite parse_formatISO by assumption. repeat split; try reflexivity; assumption.
Qed.

Lemma normalizeEvent_present (event event' : ActionNetworkEvent) (data : ICalEventData) :
  end_date_missing event = false ->
  normalizeEvent h event = Normal (event', data) ->
  event' = event /\ ev_end data = endDate h event.
Proof.
  intros Hp. unfold normalizeEvent. rewrite (repairEndDate_present _ Hp).
  cbn [bindC]. unfold eventData.
  destruct (location event); [|discriminate].
  cbn [bindC]. intros [= <- <-]. auto.
Qed.

End Repair.

(** ** Normalization: end dates *)

(** On a host whose zone keeps one offset, a missing end date is repaired
    to the start plus 7200000 ms, and a present one is left as it is. *)
Lemma normalizeEvent_fixedZone (h : Host) (offset : Z)
    (event event' : ActionNetworkEvent) (data : ICalEventData) :
  fixedZone h offset ->
  normalizeEvent h event = Normal (event', data) ->
  if end_date_missing event
  then exists t, ev_start data = Some t /\ ev_end data = Some (t + 7200000)
  else ev_end data = endDate h event.
Proof.
  intros Hz Hn. destruct (end_date_missing event) eqn:Hm.
  - destruct (normalizeEvent_missing h _ _ _ Hm Hn) as (t & u & _ & Hu & _ & Hs & He).
    rewrite (twoHoursLater_fixedZone h offset t Hz) in Hu.
    apply TimeClip_Some in Hu as (-> & _). exists t. auto.
  - apply (normalizeEvent_present h _ _ _ Hm Hn).
Qed.

(** C1, at the failing input.  On a host on US Eastern time, the event
    that starts at 2024-03-10T06:30:00Z (01:30 local time) and has no end
    date is given the end 2024-03-10T07:30:00.000Z (03:30 local time):
    [setHours(getHours() + 2)] moved the wall clock by two hours across the
    start of daylight saving, which is one hour later, not two. *)
Theorem C1_spring_forward_end_is_one_hour_later :
  exists event' data,
    normalizeEvent easternHost springForwardEvent = Normal (event', data)
    /\ ev_start data = Some 1710052200000
    /\ ev_end data = Some (1710052200000 + 3600000)
    /\ end_date event' = Some "2024-03-10T07:30:00.000Z".
Proof.
  eexists. eexists. split; [vm_compute; reflexivity|].
  repeat split; reflexivity.
Qed.

(** C7, as stated, fails: an upstream end date before the start is copied
    into the calendar as it is. *)
Lemma C7_counterexample_end_before_start :
  exists data,
    normalizeEvent utcHost backwardsEvent = Normal (backwardsEvent, data)
    /\ ~ (exists s e, ev_start data = Some s /\ ev_end data = Some e /\ s < e).
Proof.
  eexists. split; [vm_compute; reflexivity|].
  cbn [ev_start ev_end]. intros (s & e & [= <-] & [= <-] & Hlt). lia.
Qed.

(** C7, amended.  For every event data the callback produces from a raw
    event without end date, start and end are valid instants and the end
    is strictly after the start, on any host whose zone offsets differ by
    less than two hours; for a raw event with an end date the end is what
    that string parses to, whatever the start is. *)
Theorem C7_synthesized_end_after_start (h : Host)
    (event event' : ActionNetworkEvent) (data : ICalEventData) :
  zoneDriftBelowTwoHours h ->
  normalizeEvent h event = Normal (event', data) ->
  if end_date_missing event
  then exists s e, ev_start data = Some s /\ ev_end data = Some e /\ s < e
  else ev_end data = endDate h event.
Proof.
  intros Hz Hn. destruct (end_date_missing event) eqn:Hm.
  - destruct (normalizeEvent_missing h _ _ _ Hm Hn) as (t & u & _ & Hu & _ & Hs & He).
    exists t, u. repeat split; try assumption.
    apply (twoHoursLater_after h t u Hz Hu).
  - apply (normalizeEvent_present h _ _ _ Hm Hn).
Qed.

Lemma utcHost_fixedZone : fixedZone utcHost 0.
Proof. intros t b. reflexivity. Qed.

Lemma utcHost_zoneDrift : zoneDriftBelowTwoHours utcHost.
Proof. intros t u. cbn. lia. Qed.

Lemma C7_synthesized_end_after_start_witness :
  exists s e,
    Some 1717236000000 = Some s /\ Some 1717243200000 = Some e /\ s < e.
Proof.
  exact (C7_synthesized_end_after_start utcHost openEndedEvent
           (set_end_date openEndedEvent "2024-06-01T12:00:00.000Z")
           {| ev_start := Some 1717236000000; ev_end := Some 1717243200000;
              ev_summary := "Canvass"; ev_description := "Door knocking";
              ev_location := "Town Hall" |}
           utcHost_zoneDrift eq_refl).
Defined.

(** ** Normalization: the raw record *)

(** C8, as stated, fails: the callback assigns to [event.end_date], so a
    raw record without end date is not the same after normalization. *)
Lemma C8_counterexample_record_modified :
  exists event' data,
    normalizeEvent utcHost openEndedEvent = Normal (event', data)
    /\ end_date openEndedEvent = None
    /\ end_date event' = Some "2024-06-01T12:00:00.000Z"
    /\ event' <> openEndedEvent.
Proof.
  eexists. eexists. split; [vm_compute; reflexivity|].
  repeat split. discriminate.
Qed.

Lemma repairEndDate_frame (h : Host) (event event' : ActionNetworkEvent) :
  repairEndDate h event = Normal event' ->
  start_date event' = start_date event /\ title event' = title event
  /\ description event' = description event /\ location event' = location event.
Proof.
  unfold repairEndDate. destruct (end_date_missing event).
  - destruct (JSDate.toISOString _); cbn [bindC]; [|discriminate].
    intros [= <-]. repeat split.
  - intros [= <-]. repeat split.
Qed.

(** C8, amended.  The callback takes and returns no world: it reads no
    clock and sends no request.  Of the raw record it changes nothing but
    [end_date], and that only when it was missing: it is then set to the
    ISO string of the repaired end.  A record with an end date is the same
    record afterwards. *)
Theorem C8_only_missing_end_date_is_written (h : Host)
    (event event' : ActionNetworkEvent) (data : ICalEventData) :
  normalizeEvent h event = Normal (event', data) ->
  start_date event' = start_date event /\ title event' = title event
  /\ description event' = description event /\ location event' = location event
  /\ if end_date_missing event
     then exists t u, DateObject.parse h (start_date event) = Some t
                      /\ twoHoursLater h t = Some u
                      /\ end_date event' = Some (JSDate.formatISO u)
     else event' = event.
Proof.
  intros Hn.
  assert (Hr : repairEndDate h event = Normal event').
  { revert Hn. unfold normalizeEvent.
    destruct (repairEndDate h event) as [e1|]; cbn [bindC]; [|discriminate].
    destruct (eventData h e1); cbn [bindC]; [|discriminate].
    intros [= <- _]. reflexivity. }
  destruct (repairEndDate_frame h _ _ Hr) as (H1 & H2 & H3 & H4).
  repeat (split; [assumption|]).
  destruct (end_date_missing event) eqn:Hm.
  - destruct (normalizeEvent_missing h _ _ _ Hm Hn) as (t & u & Ht & Hu & -> & _).
    exists t, u. repeat split; assumption.
  - apply (normalizeEvent_present h _ _ _ Hm Hn).
Qed.

Lemma C8_only_missing_end_date_is_written_witness :
  start_date closedEvent = start_date closedEvent /\ title closedEvent = title closedEvent
  /\ description closedEvent = description closedEvent
  /\ location closedEvent = location closedEvent
  /\ closedEvent = closedEvent.
Proof.
  exact (C8_only_missing_end_date_is_written utcHost closedEvent closedEvent
           {| ev_start := Some 1717236000000; ev_end := Some 1717241400000;
              ev_summary := "Meeting"; ev_description := "Monthly";
              ev_location := "Town Hall" |} eq_refl).
Defined.

(** ** Normalization: a missing location *)

Lemma normalizeEvent_no_location (h : Host) (event : ActionNetworkEvent) :
  location event = None -> exists e, normalizeEvent h event = Throw e.
Proof.
  intros Hl. unfold normalizeEvent.
  destruct (repairEndDate h event) as [event'|e] eqn:Hr; cbn [bindC].
  - destruct (repairEndDate_frame h _ _ Hr) as (_ & _ & _ & Hloc).
    unfold eventData. rewrite Hloc, Hl. cbn [bindC]. eauto.
  - eauto.
Qed.

(** With its end date present the event fails at the access to [venue]. *)
Lemma normalizeEvent_no_location_TypeError (h : Host) (event : ActionNetworkEvent) :
  location event = None -> end_date_missing event = false ->
  normalizeEvent h event = Throw TypeError.
Proof.
  intros Hl Hm. unfold normalizeEvent. rewrite (repairEndDate_present h _ Hm).
  cbn [bindC]. unfold eventData. rewrite Hl. reflexivity.
Qed.

Lemma forEachCallback_no_location (h : Host) (calendar : ICalCalendar)
    (event : ActionNetworkEvent) :
  location event = None -> exists e, forEachCallback h calendar event = Throw e.
Proof.
  intros Hl. unfold forEachCallback.
  destruct (normalizeEvent_no_location h event Hl) as (e & ->). cbn [bindC]. eauto.
Qed.

Lemma forEachEvent_no_location (h : Host) (flattened : list ActionNetworkEvent) :
  forall calendar event,
    In event flattened -> location event = None ->
    exists e, forEachEvent h flattened calendar = Throw e.
Proof.
  induction flattened as [|first rest IH]; intros calendar event Hin Hl.
  - destruct Hin.
  - cbn [forEachEvent].
    destruct (forEachCallback h calendar first) as [r|e] eqn:Hn; cbn [bindC]; [|eauto].
    destruct Hin as [->|Hin].
    + destruct (forEachCallback_no_location h calendar event Hl) as (e & He). congruence.
    + destruct (IH (snd r) event Hin Hl) as (e & ->).
      cbn [bindC]. eauto.
Qed.

(** C10.  If any of the fetched events has no location, the request gets
    no calendar: [generateICalForFeeds] throws, whatever the other events
    are, and the handler with it. *)
Theorem C10_missing_location_fails_request (h : Host) (keys : JSObject.Obj)
    (calendarNames : list string) (overrideCalendarName : option string)
    (schedule : list Delivery) (w w' : World)
    (allEvents : list (list ActionNetworkEvent)) (event : ActionNetworkEvent) :
  awaitAll h keys calendarNames schedule w = (w', Returned allEvents) ->
  In event (List.concat allEvents) ->
  location event = None ->
  exists e,
    generateICalForFeeds h keys calendarNames overrideCalendarName schedule w = (w', Threw e)
    /\ (find (unconfigured keys) calendarNames = None ->
        events_handler h keys overrideCalendarName (Some calendarNames) schedule w
        = (w', Threw e)).
Proof.
  intros Ha Hin Hl.
  destruct (forEachEvent_no_location h (List.concat allEvents)
              {| cal_name := calendarName calendarNames overrideCalendarName;
                 cal_events := [] |} event Hin Hl) as (e & He).
  exists e.
  assert (Hg : generateICalForFeeds h keys calendarNames overrideCalendarName schedule w
               = (w', Threw e)).
  { unfold generateICalForFeeds. rewrite Ha. unfold buildCalendar. rewrite He.
    reflexivity. }
  split; [exact Hg|].
  intros Hf. unfold events_handler. rewrite Hf, Hg. reflexivity.
Qed.

Lemma C10_missing_location_fails_request_witness :
  exists e,
    generateICalForFeeds utcHost oneKey ["TEAM_A"] None placelessSchedule world0
    = (fst (awaitAll utcHost oneKey ["TEAM_A"] placelessSchedule world0), Threw e)
    /\ (find (unconfigured oneKey) ["TEAM_A"] = None ->
        events_handler utcHost oneKey None (Some ["TEAM_A"]) placelessSchedule world0
        = (fst (awaitAll utcHost oneKey ["TEAM_A"] placelessSchedule world0), Threw e)).
Proof.
  exact (C10_missing_location_fails_request utcHost oneKey ["TEAM_A"] None
           placelessSchedule world0
           (fst (awaitAll utcHost oneKey ["TEAM_A"] placelessSchedule world0))
           [[closedEvent; placelessEvent]] placelessEvent
           eq_refl (or_intror (or_introl eq_refl)) eq_refl).
Defined.

(** ** The paginated fetch *)

Section Fetch.
Variable h : Host.
Hypothesis Hclock : clockValid h.

Lemma sendRequest_valid (token : JSObject.Value) (url : string)
    (events : list ActionNetworkEvent) (w : World) :
  exists r,
    requestFor token url r
    /\ sendRequest h token url events w
       = ({| ticks := S (ticks w); requests := (requests w ++ [r])%list |}, Awaiting events).
Proof.
  unfold sendRequest, DateObject.now, JSDate.TimeClip.
  destruct (Z.leb_spec (Z.abs (clock h (ticks w))) JSDate.maxTime) as [_|Hbad].
  - cbn [JSDate.toISOString]. eexists. split; [|reflexivity].
    split; [reflexivity|]. cbn [req_url]. eexists. reflexivity.
  - specialize (Hclock (ticks w)). lia.
Qed.

Lemma fetchLoop_paginated (token : JSObject.Value) (st : Z) :
  forall pages url events extra w,
    paginated pages = true ->
    exists w1 w' reqs,
      sendRequest h token url events w = (w1, Awaiting events)
      /\ fetchLoop h token events (map (Json st) pages ++ extra)%list w1
         = (w', Fulfilled (events ++ List.concat (map batchOf pages))%list)
      /\ requests w' = (requests w ++ reqs)%list
      /\ List.length reqs = List.length pages
      /\ Forall2 (requestFor token) (targets url pages) reqs.
Proof.
  induction pages as [|page rest IH]; intros url events extra w Hp; [discriminate|].
  destruct (sendRequest_valid token url events w) as (r & Hr & Hs).
  cbn [paginated] in Hp.
  destruct (embedded_events page) as [batch|] eqn:Hb; [|discriminate].
  destruct (links_next page) as [[href|]|] eqn:Hl; [| |discriminate].
  - destruct rest as [|page' rest']; [discriminate|].
    set (R := page' :: rest') in *.
    destruct (IH href (events ++ batch)%list extra
                {| ticks := S (ticks w); requests := (requests w ++ [r])%list |} Hp)
      as (w1 & w' & reqs & Hs1 & Hloop & Hreqs & Hlen & Hall).
    eexists. exists w', (r :: reqs). split; [exact Hs|].
    cbn [map app fetchLoop resume]. rewrite Hb, Hl, Hs1.
    cbn [requests] in Hreqs.
    split; [|split; [|split]].
    + rewrite Hloop. cbn [List.concat]. unfold batchOf at 2. rewrite Hb, app_assoc.
      reflexivity.
    + rewrite Hreqs, <- app_assoc. reflexivity.
    + cbn [List.length]. rewrite Hlen. reflexivity.
    + cbn [targets]. rewrite Hl. constructor; assumption.
  - destruct rest as [|page' rest']; [|discriminate].
    eexists. eexists. exists [r]. split; [exact Hs|].
    cbn [map app fetchLoop resume]. rewrite Hb, Hl.
    split; [|split; [|split]].
    + cbn [List.concat map]. unfold batchOf. rewrite Hb, !app_nil_r. reflexivity.
    + reflexivity.
    + reflexivity.
    + cbn [targets]. rewrite Hl. constructor; [assumption|constructor].
Qed.

End Fetch.

(** C2.  A feed whose answers are the N pages of a pagination (the first
    N-1 with a next-page link, the N-th without) makes
    [fetchAllEventsForCalendar] send exactly N requests: the first to the
    listing endpoint, each following one to the link of the page before,
    all with the token of the feed.  It returns the batches of the N pages
    concatenated in page order, and it stops there: answers that would
    follow are not asked for. *)
Theorem C2_paginated_fetch (h : Host) (keys : JSObject.Obj) (calendarName : string)
    (st : Z) (pages : list ActionNetworkEventList) (extra : list FetchOutcome) (w : World) :
  clockValid h ->
  paginated pages = true ->
  exists w' reqs,
    fetchAllEventsForCalendar h keys calendarName (map (Json st) pages ++ extra)%list w
    = (w', Fulfilled (List.concat (map batchOf pages)))
    /\ requests w' = (requests w ++ reqs)%list
    /\ List.length reqs = List.length pages
    /\ Forall2 (requestFor (JSObject.get keys calendarName)) (targets API_URL pages) reqs.
Proof.
  intros Hclock Hp.
  destruct (fetchLoop_paginated h Hclock (JSObject.get keys calendarName) st
              pages API_URL [] extra w Hp)
    as (w1 & w' & reqs & Hs & Hloop & Hreqs & Hlen & Hall).
  exists w', reqs. unfold fetchAllEventsForCalendar, startFetch.
  rewrite Hs, Hloop. auto.
Qed.

(** ** Indexed maps *)

Lemma imapFrom_ext {A B} (f g : nat -> A -> B) (l : list A) : forall i,
  (forall j x, (i <= j)%nat -> f j x = g j x) -> imapFrom f i l = imapFrom g i l.
Proof.
  induction l as [|x r IH]; intros i H; [reflexivity|].
  cbn [imapFrom]. rewrite (H i x (le_n i)). f_equal.
  apply IH. intros j y Hj. apply H. lia.
Qed.

Lemma imapFrom_id {A} (f : nat -> A -> A) (l : list A) : forall i,
  (forall j x, (i <= j)%nat -> f j x = x) -> imapFrom f i l = l.
Proof.
  induction l as [|x r IH]; intros i H; [reflexivity|].
  cbn [imapFrom]. rewrite (H i x (le_n i)). f_equal.
  apply IH. intros j y Hj. apply H. lia.
Qed.

Lemma imapFrom_imapFrom {A B C} (f : nat -> A -> B) (g : nat -> B -> C) (l : list A) :
  forall i, imapFrom g i (imapFrom f i l) = imapFrom (fun j x => g j (f j x)) i l.
Proof.
  induction l as [|x r IH]; intros i; [reflexivity|].
  cbn [imapFrom]. f_equal. apply IH.
Qed.

Lemma imapFrom_map {A B C} (f : A -> B) (g : nat -> B -> C) (l : list A) :
  forall i, imapFrom g i (map f l) = imapFrom (fun j x => g j (f x)) i l.
Proof.
  induction l as [|x r IH]; intros i; [reflexivity|].
  cbn [imapFrom map]. f_equal. apply IH.
Qed.

Lemma map_imapFrom {A B C} (f : nat -> A -> B) (g : B -> C) (l : list A) :
  forall i, map g (imapFrom f i l) = imapFrom (fun j x => g (f j x)) i l.
Proof.
  induction l as [|x r IH]; intros i; [reflexivity|].
  cbn [imapFrom map]. f_equal. apply IH.
Qed.

Lemma imapFrom_length {A B} (f : nat -> A -> B) (l : list A) :
  forall i, List.length (imapFrom f i l) = List.length l.
Proof.
  induction l as [|x r IH]; intros i; [reflexivity|].
  cbn [imapFrom List.length]. f_equal. apply IH.
Qed.

(** Replacing the element at [n] is an indexed map that touches only [n]. *)
Lemma replace_imapFrom {A} (g : A -> A) (l : list A) : forall n k x,
  nth_error l n = Some x ->
  replace n (g x) l = imapFrom (fun j y => if Nat.eqb (n + k) j then g y else y) k l.
Proof.
  induction l as [|y r IH]; intros n k x Hn.
  - destruct n; discriminate.
  - destruct n as [|n].
    + injection Hn as ->. cbn [replace imapFrom plus]. rewrite Nat.eqb_refl. f_equal.
      symmetry. apply imapFrom_id. intros j z Hj.
      destruct (Nat.eqb_spec k j); [lia|reflexivity].
    + cbn [replace imapFrom]. cbn [nth_error] in Hn.
      destruct (Nat.eqb_spec (S n + k) k); [lia|]. f_equal.
      rewrite (IH n (S k) x Hn). apply imapFrom_ext. intros j z _.
      replace (n + S k)%nat with (S n + k)%nat by lia. reflexivity.
Qed.

Lemma untouched_imapFrom {A} (g : A -> A) (l : list A) : forall n k,
  (forall x, nth_error l n = Some x -> g x = x) ->
  imapFrom (fun j y => if Nat.eqb (n + k) j then g y else y) k l = l.
Proof.
  induction l as [|y r IH]; intros n k H; [reflexivity|].
  cbn [imapFrom]. destruct n as [|n].
  - cbn [plus]. rewrite Nat.eqb_refl, (H y eq_refl). f_equal.
    apply imapFrom_id. intros j z Hj. destruct (Nat.eqb_spec k j); [lia|reflexivity].
  - destruct (Nat.eqb_spec (S n + k) k); [lia|]. f_equal.
    rewrite <- (IH n (S k)) at 2 by (intros x Hx; apply H; exact Hx).
    apply imapFrom_ext. intros j z _.
    replace (n + S k)%nat with (S n + k)%nat by lia. reflexivity.
Qed.

Lemma replace_imap {A} (g : A -> A) (l : list A) (n : nat) (x : A) :
  nth_error l n = Some x ->
  replace n (g x) l = imapFrom (fun j y => if Nat.eqb n j then g y else y) 0%nat l.
Proof.
  intros Hn. rewrite (replace_imapFrom g l n 0%nat x Hn).
  apply imapFrom_ext. intros j y _. rewrite Nat.add_0_r. reflexivity.
Qed.

Lemma untouched_imap {A} (g : A -> A) (l : list A) (n : nat) :
  (forall x, nth_error l n = Some x -> g x = x) ->
  imapFrom (fun j y => if Nat.eqb n j then g y else y) 0%nat l = l.
Proof.
  intros H. rewrite <- (untouched_imapFrom g l n 0%nat H) at 2.
  apply imapFrom_ext. intros j y _. rewrite Nat.add_0_r. reflexivity.
Qed.

(** ** The concurrent activations *)

Section Pool.
Variable h : Host.
Hypothesis Hclock : clockValid h.

Lemma resume_fiber_indep (token : JSObject.Value) (events : list ActionNetworkEvent)
    (o : FetchOutcome) (w w' : World) :
  snd (resume h token events o w) = snd (resume h token events o w').
Proof.
  unfold resume. destruct o as [|st|st data]; try reflexivity.
  destruct (embedded_events data); [|reflexivity].
  destruct (links_next data) as [[href|]|]; try reflexivity.
  destruct (sendRequest_valid h Hclock token href (events ++ l)%list w) as (r & _ & ->).
  destruct (sendRequest_valid h Hclock token href (events ++ l)%list w') as (r' & _ & ->).
  reflexivity.
Qed.

Lemma fetchLoop_fiber_indep (token : JSObject.Value) (answers : list FetchOutcome) :
  forall events w w',
    snd (fetchLoop h token events answers w) = snd (fetchLoop h token events answers w').
Proof.
  induction answers as [|o rest IH]; intros events w w'; [reflexivity|].
  cbn [fetchLoop].
  pose proof (resume_fiber_indep token events o w w') as E.
  destruct (resume h token events o w) as [w1 f1].
  destruct (resume h token events o w') as [w1' f1'].
  cbn [snd] in E. subst f1'.
  destruct f1; try reflexivity. apply IH.
Qed.

Lemma continueFiber_nil (token : JSObject.Value) (f : Fiber) :
  continueFiber h token f [] = f.
Proof. destruct f; reflexivity. Qed.

Lemma continueFiber_cons (token : JSObject.Value) (f : Fiber) (o : FetchOutcome)
    (rest : list FetchOutcome) :
  continueFiber h token (continueFiber h token f [o]) rest
  = continueFiber h token f (o :: rest).
Proof.
  destruct f as [events| |]; try reflexivity.
  cbn [continueFiber fetchLoop].
  destruct (resume h token events o world0) as [w1 f1].
  destruct f1; cbn [snd continueFiber]; try reflexivity.
  apply fetchLoop_fiber_indep.
Qed.

Lemma advance_nil (t : Task) : advance h [] t = t.
Proof. destruct t as [token f]. unfold advance. cbn. rewrite continueFiber_nil. reflexivity. Qed.

Lemma advance_cons (o : FetchOutcome) (rest : list FetchOutcome) (t : Task) :
  advance h rest (advance h [o] t) = advance h (o :: rest) t.
Proof.
  destruct t as [token f]. unfold advance. cbn [task_token task_fiber].
  rewrite continueFiber_cons. reflexivity.
Qed.

(** The tasks after one delivery. *)
Lemma deliver_tasks (d : Delivery) (p : Pool) (w : World) :
  tasks (snd (deliver h d p w))
  = imapFrom (fun i t => if Nat.eqb (d_feed d) i then advance h [d_outcome d] t else t)
      0%nat (tasks p).
Proof.
  unfold deliver.
  destruct (nth_error (tasks p) (d_feed d)) as [[token f]|] eqn:Hn.
  - destruct f as [events| |].
    + pose proof (resume_fiber_indep token events (d_outcome d) w world0) as E.
      destruct (resume h token events (d_outcome d) w) as [w1 f1]. cbn [snd tasks] in *.
      assert (Ha : advance h [d_outcome d] {| task_token := token; task_fiber := Awaiting events |}
                   = {| task_token := token; task_fiber := f1 |}).
      { unfold advance. cbn [task_token task_fiber continueFiber fetchLoop]. rewrite E.
        destruct (resume h token events (d_outcome d) world0) as [w0 f0].
        destruct f0; reflexivity. }
      rewrite <- Ha. apply (replace_imap (advance h [d_outcome d])). exact Hn.
    + cbn [snd]. symmetry. apply (untouched_imap (advance h [d_outcome d])).
      intros x Hx. rewrite Hn in Hx. injection Hx as <-. reflexivity.
    + cbn [snd]. symmetry. apply (untouched_imap (advance h [d_outcome d])).
      intros x Hx. rewrite Hn in Hx. injection Hx as <-. reflexivity.
  - cbn [snd]. symmetry. apply (untouched_imap (advance h [d_outcome d])).
    intros x Hx. rewrite Hn in Hx. discriminate.
Qed.

Lemma answersFor_cons (i : nat) (d : Delivery) (rest : list Delivery) :
  answersFor i (d :: rest)
  = if Nat.eqb (d_feed d) i then d_outcome d :: answersFor i rest else answersFor i rest.
Proof. unfold answersFor. cbn [filter]. destruct (Nat.eqb (d_feed d) i); reflexivity. Qed.

(** The tasks after a schedule: each activation has run on the answers
    addressed to it, in their order, whatever came in between. *)
Lemma runSchedule_tasks (schedule : list Delivery) : forall p w,
  tasks (snd (runSchedule h schedule p w))
  = imapFrom (fun i t => advance h (answersFor i schedule) t) 0%nat (tasks p).
Proof.
  induction schedule as [|d rest IH]; intros p w.
  - cbn [runSchedule snd]. symmetry. apply imapFrom_id. intros j t _. apply advance_nil.
  - cbn [runSchedule].
    pose proof (deliver_tasks d p w) as Hd.
    destruct (deliver h d p w) as [w1 p1]. cbn [snd] in Hd.
    rewrite IH, Hd, imapFrom_imapFrom. apply imapFrom_ext. intros j t _.
    rewrite answersFor_cons. destruct (Nat.eqb (d_feed d) j); [apply advance_cons|reflexivity].
Qed.

Lemma startAll_tasks (keys : JSObject.Obj) (calendarNames : list string) : forall p w,
  tasks (snd (startAll h keys calendarNames p w))
  = (tasks p
     ++ map (fun name => {| task_token := JSObject.get keys name; task_fiber := Awaiting [] |})
         calendarNames)%list.
Proof.
  induction calendarNames as [|name rest IH]; intros p w.
  - cbn [startAll snd map]. rewrite app_nil_r. reflexivity.
  - cbn [startAll map]. unfold startFetch.
    destruct (sendRequest_valid h Hclock (JSObject.get keys name) API_URL [] w) as (r & _ & ->).
    rewrite IH. cbn [tasks]. rewrite <- app_assoc. reflexivity.
Qed.

Lemma allFulfilled_events (ts : list Task) : forall results,
  allFulfilled ts = Some results ->
  results = map (fun t => eventsOf (task_fiber t)) ts.
Proof.
  induction ts as [|t r IH]; intros results.
  - intros [= <-]. reflexivity.
  - cbn [allFulfilled map].
    destruct (task_fiber t) as [|events|]; try discriminate.
    destruct (allFulfilled r) as [rest|]; [|discriminate].
    intros [= <-]. cbn [eventsOf]. f_equal. apply IH. reflexivity.
Qed.

Lemma fetchAll_continue (keys : JSObject.Obj) (name : string) (answers : list FetchOutcome) :
  snd (fetchAllEventsForCalendar h keys name answers world0)
  = continueFiber h (JSObject.get keys name) (Awaiting []) answers.
Proof.
  unfold fetchAllEventsForCalendar, startFetch.
  destruct (sendRequest_valid h Hclock (JSObject.get keys name) API_URL [] world0)
    as (r & _ & ->).
  cbn [continueFiber]. apply fetchLoop_fiber_indep.
Qed.

(** What [Promise.all] is fulfilled with. *)
Lemma awaitAll_returned (keys : JSObject.Obj) (calendarNames : list string)
    (schedule : list Delivery) (w w' : World) (allEvents : list (list ActionNetworkEvent)) :
  awaitAll h keys calendarNames schedule w = (w', Returned allEvents) ->
  allEvents = perFeedEvents h keys calendarNames schedule.
Proof.
  unfold awaitAll.
  pose proof (startAll_tasks keys calendarNames initialPool w) as Hs.
  destruct (startAll h keys calendarNames initialPool w) as [w1 p1]. cbn [snd] in Hs.
  pose proof (runSchedule_tasks schedule p1 w1) as Hr.
  destruct (runSchedule h schedule p1 w1) as [w2 p2]. cbn [snd] in Hr.
  unfold Promise_all. destruct (first_rejection p2); [discriminate|].
  destruct (allFulfilled (tasks p2)) as [results|] eqn:Hall; [|discriminate].
  intros [= _ <-]. apply allFulfilled_events in Hall. subst results.
  rewrite Hr, Hs. cbn [initialPool tasks app].
  rewrite imapFrom_map, map_imapFrom. unfold perFeedEvents.
  apply imapFrom_ext. intros j name _.
  unfold advance. cbn [task_fiber task_token]. rewrite fetchAll_continue. reflexivity.
Qed.

End Pool.

Lemma forEachEvent_stored (h : Host) (flattened : list ActionNetworkEvent) :
  forall calendar flattened' calendar',
    forEachEvent h flattened calendar = Normal (flattened', calendar') ->
    cal_name calendar' = cal_name calendar
    /\ exists stored,
         cal_events calendar' = (cal_events calendar ++ stored)%list
         /\ Forall2 (storedFrom h) flattened stored.
Proof.
  induction flattened as [|event rest IH]; intros calendar flattened' calendar'.
  - intros [= <- <-]. split; [reflexivity|]. exists []. rewrite app_nil_r. auto.
  - cbn [forEachEvent]. unfold forEachCallback, createEvent.
    destruct (normalizeEvent h event) as [[event' data]|e] eqn:Hn; cbn [bindC snd fst];
      [|discriminate].
    destruct (storedEvent data) as [kept|e] eqn:Hk; cbn [bindC snd fst]; [|discriminate].
    destruct (forEachEvent h rest _) as [[fl c]|e] eqn:Hf; cbn [bindC snd fst];
      [|discriminate].
    intros [= <- <-].
    destruct (IH _ _ _ Hf) as (Hname & stored & Hev & Hall).
    split; [exact Hname|]. exists (kept :: stored). split.
    + rewrite Hev. cbn [cal_events]. rewrite <- app_assoc. reflexivity.
    + constructor; [exists event', data; auto|exact Hall].
Qed.

Lemma allFulfilled_fibers (ts : list Task) : forall results,
  allFulfilled ts = Some results -> map task_fiber ts = map Fulfilled results.
Proof.
  induction ts as [|t r IH]; intros results.
  - intros [= <-]. reflexivity.
  - cbn [allFulfilled map].
    destruct (task_fiber t) as [|events|]; try discriminate.
    destruct (allFulfilled r) as [rest|]; [|discriminate].
    intros [= <-]. cbn [map]. f_equal. apply IH. reflexivity.
Qed.

(** When [Promise.all] is fulfilled, every feed's own fetch has returned,
    and the results are these returns in the order of the feeds. *)
Lemma awaitAll_returned_fulfilled (h : Host) (keys : JSObject.Obj)
    (calendarNames : list string) (schedule : list Delivery) (w w' : World)
    (allEvents : list (list ActionNetworkEvent)) :
  clockValid h ->
  awaitAll h keys calendarNames schedule w = (w', Returned allEvents) ->
  imapFrom (fun i name =>
              snd (fetchAllEventsForCalendar h keys name (answersFor i schedule) world0))
    0%nat calendarNames
  = map Fulfilled allEvents.
Proof.
  intros Hclock. unfold awaitAll.
  pose proof (startAll_tasks h Hclock keys calendarNames initialPool w) as Hs.
  destruct (startAll h keys calendarNames initialPool w) as [w1 p1]. cbn [snd] in Hs.
  pose proof (runSchedule_tasks h Hclock schedule p1 w1) as Hr.
  destruct (runSchedule h schedule p1 w1) as [w2 p2]. cbn [snd] in Hr.
  unfold Promise_all. destruct (first_rejection p2); [discriminate|].
  destruct (allFulfilled (tasks p2)) as [results|] eqn:Hall; [|discriminate].
  intros [= _ <-]. apply allFulfilled_fibers in Hall. rewrite <- Hall, Hr, Hs.
  cbn [initialPool tasks app]. rewrite imapFrom_map, map_imapFrom.
  apply imapFrom_ext. intros j name _.
  unfold advance. cbn [task_fiber task_token].
  apply (fetchAll_continue h Hclock).
Qed.

Lemma generateICalForFeeds_returned (h : Host) (keys : JSObject.Obj)
    (calendarNames : list string) (overrideCalendarName : option string)
    (schedule : list Delivery) (w w' : World) (calendar : ICalCalendar) :
  clockValid h ->
  generateICalForFeeds h keys calendarNames overrideCalendarName schedule w
  = (w', Returned calendar) ->
  buildCalendar h calendarNames overrideCalendarName
    (perFeedEvents h keys calendarNames schedule) = Normal calendar.
Proof.
  intros Hclock. unfold generateICalForFeeds.
  destruct (awaitAll h keys calendarNames schedule w) as [w1 r] eqn:Ha.
  destruct r as [|allEvents|e]; try discriminate.
  rewrite (awaitAll_returned h Hclock keys calendarNames schedule w w1 allEvents Ha).
  destruct (buildCalendar h calendarNames overrideCalendarName
              (perFeedEvents h keys calendarNames schedule)) as [c|e] eqn:Hb;
    [|discriminate].
  intros [= _ <-]. reflexivity.
Qed.

(** Two schedules that send every feed the same answers in the same order
    give the same calendar, however the feeds are interleaved. *)
Lemma interleaving_irrelevant (h : Host) (keys : JSObject.Obj)
    (calendarNames : list string) (overrideCalendarName : option string)
    (schedule1 schedule2 : list Delivery) (w1 w1' w2 w2' : World)
    (calendar1 calendar2 : ICalCalendar) :
  clockValid h ->
  (forall i, answersFor i schedule1 = answersFor i schedule2) ->
  generateICalForFeeds h keys calendarNames overrideCalendarName schedule1 w1
  = (w1', Returned calendar1) ->
  generateICalForFeeds h keys calendarNames overrideCalendarName schedule2 w2
  = (w2', Returned calendar2) ->
  calendar1 = calendar2.
Proof.
  intros Hclock Hsame H1 H2.
  apply (generateICalForFeeds_returned h _ _ _ _ _ _ _ Hclock) in H1, H2.
  assert (E : perFeedEvents h keys calendarNames schedule1
              = perFeedEvents h keys calendarNames schedule2).
  { unfold perFeedEvents. apply imapFrom_ext. intros j name _. rewrite Hsame. reflexivity. }
  rewrite E in H1. congruence.
Qed.

(** C3.  Whatever the order in which the answers of the feeds arrive:
    when [generateICalForFeeds] returns a calendar, every feed's own fetch
    has returned on the answers addressed to it, taken in their order and
    whatever came in between; and the events of the calendar are, in
    order, those made from these per-feed sequences concatenated in the
    order of [calendarNames], each feed's own order kept. *)
Theorem C3_flattened_in_request_order (h : Host) (keys : JSObject.Obj)
    (calendarNames : list string) (overrideCalendarName : option string)
    (schedule : list Delivery) (w w' : World) (calendar : ICalCalendar) :
  clockValid h ->
  generateICalForFeeds h keys calendarNames overrideCalendarName schedule w
  = (w', Returned calendar) ->
  exists perFeed,
    imapFrom (fun i name =>
                snd (fetchAllEventsForCalendar h keys name (answersFor i schedule) world0))
      0%nat calendarNames
    = map Fulfilled perFeed
    /\ Forall2 (storedFrom h) (List.concat perFeed) (cal_events calendar).
Proof.
  intros Hclock. unfold generateICalForFeeds.
  destruct (awaitAll h keys calendarNames schedule w) as [w1 r] eqn:Ha.
  destruct r as [|allEvents|e]; try discriminate.
  pose proof (awaitAll_returned_fulfilled h keys calendarNames schedule w w1 allEvents
                Hclock Ha) as Hfeeds.
  unfold buildCalendar.
  destruct (forEachEvent h _ _) as [[fl c]|e] eqn:Hf; cbn [bindC snd]; [|discriminate].
  intros [= _ <-]. exists allEvents. split; [exact Hfeeds|].
  destruct (forEachEvent_stored h _ _ _ _ Hf) as (_ & stored & Hev & Hall).
  cbn [cal_events app] in Hev. rewrite Hev. exact Hall.
Qed.

(** ** Failures of the upstream *)

Section Failures.
Variable h : Host.

Lemma noteRejection_sticky (e : JSError) (f : Fiber) : noteRejection (Some e) f = Some e.
Proof. reflexivity. Qed.

Lemma deliver_rejection_sticky (d : Delivery) (p : Pool) (w : World) (e : JSError) :
  first_rejection p = Some e -> first_rejection (snd (deliver h d p w)) = Some e.
Proof.
  intros He. unfold deliver.
  destruct (nth_error (tasks p) (d_feed d)) as [[token [events| |]]|]; try exact He.
  destruct (resume h token events (d_outcome d) w) as [w1 f].
  cbn [snd first_rejection]. rewrite He. reflexivity.
Qed.

Lemma runSchedule_rejection_sticky (schedule : list Delivery) : forall p w e,
  first_rejection p = Some e -> first_rejection (snd (runSchedule h schedule p w)) = Some e.
Proof.
  induction schedule as [|d rest IH]; intros p w e He; [exact He|].
  cbn [runSchedule].
  pose proof (deliver_rejection_sticky d p w e He) as Hd.
  destruct (deliver h d p w) as [w1 p1]. apply IH. exact Hd.
Qed.

Lemma resume_malformed (token : JSObject.Value) (events : list ActionNetworkEvent)
    (o : FetchOutcome) (w : World) :
  malformed o = true -> exists e, resume h token events o w = (w, Rejected e).
Proof.
  destruct o as [|st|st data]; cbn [malformed resume]; eauto.
  destruct (embedded_events data); [|eauto].
  destruct (links_next data); [discriminate|eauto].
Qed.

Lemma deliver_malformed (d : Delivery) (p : Pool) (w : World) :
  waiting p (d_feed d) = true -> malformed (d_outcome d) = true ->
  exists e, first_rejection (snd (deliver h d p w)) = Some e.
Proof.
  unfold waiting, deliver. intros Hw Hm.
  destruct (nth_error (tasks p) (d_feed d)) as [[token [events| |]]|]; try discriminate.
  destruct (resume_malformed token events (d_outcome d) w Hm) as (e & ->).
  cbn [snd first_rejection]. destruct (first_rejection p); cbn [noteRejection]; eauto.
Qed.

Lemma runSchedule_app (s1 s2 : list Delivery) : forall p w,
  runSchedule h (s1 ++ s2)%list p w
  = runSchedule h s2 (snd (runSchedule h s1 p w)) (fst (runSchedule h s1 p w)).
Proof.
  induction s1 as [|d rest IH]; intros p w; [reflexivity|].
  cbn [app runSchedule]. destruct (deliver h d p w) as [w1 p1]. apply IH.
Qed.

Lemma awaitAll_malformed (keys : JSObject.Obj) (calendarNames : list string)
    (before after : list Delivery) (d : Delivery) (w : World) :
  waiting (poolAfter h keys calendarNames before w) (d_feed d) = true ->
  malformed (d_outcome d) = true ->
  exists e, snd (awaitAll h keys calendarNames (before ++ d :: after)%list w) = Threw e.
Proof.
  unfold poolAfter, awaitAll. intros Hw Hm.
  destruct (startAll h keys calendarNames initialPool w) as [w1 p1].
  rewrite runSchedule_app.
  destruct (runSchedule h before p1 w1) as [w2 p2]. cbn [fst snd] in *.
  cbn [runSchedule].
  destruct (deliver_malformed d p2 w2 Hw Hm) as (e & He).
  destruct (deliver h d p2 w2) as [w3 p3]. cbn [snd] in He.
  pose proof (runSchedule_rejection_sticky after p3 w3 e He) as Hs.
  destruct (runSchedule h after p3 w3) as [w4 p4]. cbn [snd] in *.
  exists e. unfold Promise_all. rewrite Hs. reflexivity.
Qed.

End Failures.

(** C5, as stated, fails on the status: the source never looks at
    [response.status], so a non-success response whose body has the shape
    of a page is taken as a page, and the calendar is returned. *)
Lemma C5_counterexample_non_success_page_accepted :
  exists w' calendar,
    events_handler utcHost oneKey None (Some ["TEAM_A"])
      [ {| d_feed := 0; d_outcome := Json 500 (lastPage [closedEvent]) |} ] world0
    = (w', Returned {| status := 200;
                       headers := [("Content-Type", "text/calendar");
                                   ("Content-Disposition", "attachment; filename=events.ics")];
                       body := Serialized calendar |})
    /\ List.length (cal_events calendar) = 1%nat.
Proof.
  eexists. eexists. split; [vm_compute; reflexivity|reflexivity].
Qed.

(** ** Validation of the feed selection *)

(** A feed the validation stops at is answered with status 400 and its
    name, and the world is as before: no clock was read, no request sent. *)
Lemma events_handler_rejects (h : Host) (keys : JSObject.Obj) (nameOverride : option string)
    (feeds : list string) (schedule : list Delivery) (w : World) (feed : string) :
  find (unconfigured keys) feeds = Some feed ->
  events_handler h keys nameOverride (Some feeds) schedule w
  = (w, Returned (text ("Feed " ++ feed ++ " is not configured in API keys.")%string 400)).
Proof. intros Hf. unfold events_handler. rewrite Hf. reflexivity. Qed.

Lemma unconfigured_absent (keys : JSObject.Obj) (feed : string) :
  JSObject.getOwn keys feed = None -> JSObject.inherited feed = false ->
  unconfigured keys feed = true.
Proof.
  intros Ho Hi. unfold unconfigured, JSObject.get. rewrite Ho, Hi. reflexivity.
Qed.

(** A selection with an identifier that is neither a key of the registry
    nor a property name of [Object.prototype] is rejected: the response
    names the first identifier the validation fails on, and nothing is
    fetched. *)
Lemma absent_feed_rejected (h : Host) (keys : JSObject.Obj) (nameOverride : option string)
    (feeds : list string) (schedule : list Delivery) (w : World) (feed : string) :
  In feed feeds ->
  JSObject.getOwn keys feed = None -> JSObject.inherited feed = false ->
  exists offending,
    In offending feeds /\ unconfigured keys offending = true
    /\ events_handler h keys nameOverride (Some feeds) schedule w
       = (w, Returned (text ("Feed " ++ offending ++ " is not configured in API keys.")%string
                         400)).
Proof.
  intros Hin Ho Hi.
  destruct (find (unconfigured keys) feeds) as [offending|] eqn:Hf.
  - destruct (find_some _ _ Hf) as (Hin' & Hu).
    exists offending. repeat split; try assumption.
    apply events_handler_rejects. exact Hf.
  - pose proof (find_none _ _ Hf feed Hin) as Hn.
    rewrite (unconfigured_absent keys feed Ho Hi) in Hn. discriminate.
Qed.

(** C4, at the failing input.  The registry has the one key [TEAM_A]; the
    request asks for the feed [constructor].  [API_KEYS["constructor"]] is
    the function inherited from [Object.prototype], which is truthy: the
    validation lets the identifier through, and a request goes upstream
    with that function as its token. *)
Theorem C4_inherited_name_passes_validation :
  JSObject.getOwn oneKey "constructor" = None
  /\ unconfigured oneKey "constructor" = false
  /\ exists w' r,
       events_handler utcHost oneKey None (Some ["constructor"]) [] world0 = (w', Pending)
       /\ requests w' = [r]
       /\ req_token r = JSObject.Builtin "constructor".
Proof.
  split; [reflexivity|]. split; [reflexivity|].
  eexists. eexists. split; [vm_compute; reflexivity|].
  split; reflexivity.
Qed.

(** ** [split] after [join] *)

Section SplitJoin.
Import JSString.
Variable c : ascii.

Lemma split_no_separator (s : string) : contains c s = false -> split c s = [s].
Proof.
  induction s as [|a r IH]; intros H; [reflexivity|].
  cbn [contains] in H. apply orb_false_iff in H as (Ha & Hr).
  cbn [split]. rewrite Ha, (IH Hr). reflexivity.
Qed.

Lemma split_append (x rest : string) :
  contains c x = false ->
  split c (x ++ String c rest)%string = x :: split c rest.
Proof.
  induction x as [|a r IH]; intros H.
  - cbn [append split]. rewrite Ascii.eqb_refl. reflexivity.
  - cbn [contains] in H. apply orb_false_iff in H as (Ha & Hr).
    cbn [append split]. rewrite Ha, (IH Hr). reflexivity.
Qed.

Lemma split_join (l : list string) :
  l <> [] -> (forall s, In s l -> contains c s = false) ->
  split c (join (String c EmptyString) l) = l.
Proof.
  induction l as [|x r IH]; intros Hne Hall; [contradiction|].
  destruct r as [|y r'].
  - cbn [join]. apply split_no_separator. apply Hall. left. reflexivity.
  - change (join (String c EmptyString) (x :: y :: r'))
      with (x ++ String c (join (String c EmptyString) (y :: r')))%string.
    rewrite split_append by (apply Hall; left; reflexivity).
    f_equal. apply IH; [discriminate|].
    intros s Hs. apply Hall. right. exact Hs.
Qed.

End SplitJoin.

(** ** The derived calendar name *)

Lemma titleCase_cons (a : ascii) (r : string) :
  titleCase (String a r) = String (JSString.toUpperChar a) (JSString.toLowerCase r).
Proof. reflexivity. Qed.

Lemma calendarName_tokens (calendarNames : list string) :
  (forall name, In name calendarNames -> JSString.contains " " name = false) ->
  calendarName calendarNames None
  = ("Events for " ++ JSString.join " " (map titleCase calendarNames))%string.
Proof.
  intros Hall. unfold calendarName.
  destruct calendarNames as [|x r]; [reflexivity|].
  rewrite (split_join " " (x :: r)); [reflexivity|discriminate|exact Hall].
Qed.

(** C6, as stated, fails on its example: the remainder of every token is
    lowercased, so [TEAM_A] becomes [Team_a], not [Team_A]. *)
Lemma C6_counterexample_team_a :
  calendarName ["TEAM_A"; "TEAM_B"] None <> "Events for Team_A Team_B".
Proof. vm_compute. discriminate. Qed.

(** ** The registry and its keys *)

Section Registry.
Import JSObject.

Lemma insertIndex_perm (k : string) (l : list string) :
  Permutation (insertIndex k l) (k :: l).
Proof.
  induction l as [|k' r IH]; [reflexivity|].
  cbn [insertIndex]. destruct (indexOf k <=? indexOf k'); [reflexivity|].
  rewrite IH. apply perm_swap.
Qed.

Lemma sortIndices_perm (l : list string) : Permutation (sortIndices l) l.
Proof.
  induction l as [|k r IH]; [reflexivity|].
  cbn [sortIndices fold_right]. rewrite insertIndex_perm. constructor. exact IH.
Qed.

Lemma partition_perm {A} (f : A -> bool) (l : list A) :
  Permutation (filter f l ++ filter (fun x => negb (f x)) l)%list l.
Proof.
  induction l as [|x r IH]; [reflexivity|].
  cbn [filter]. destruct (f x); cbn [negb app].
  - constructor. exact IH.
  - rewrite <- Permutation_middle. constructor. exact IH.
Qed.

(** [Object.keys] lists the own keys, each once for each time it is there. *)
Lemma keys_perm (o : Obj) : Permutation (keys o) (map fst o).
Proof.
  unfold keys. rewrite sortIndices_perm. apply partition_perm.
Qed.

Lemma set_keys_in (o : Obj) (k v k' : string) :
  In k' (map fst (set o k v)) -> k' = k \/ In k' (map fst o).
Proof.
  induction o as [|[k0 v0] r IH]; cbn [set map fst In].
  - intros [<-|[]]. left. reflexivity.
  - destruct (String.eqb_spec k0 k); cbn [map fst In].
    + intros [<-|H]; right; [left; reflexivity|right; exact H].
    + intros [<-|H]; [right; left; reflexivity|].
      destruct (IH H) as [->|H']; [left; reflexivity|right; right; exact H'].
Qed.

Lemma set_NoDup (o : Obj) (k v : string) :
  NoDup (map fst o) -> NoDup (map fst (set o k v)).
Proof.
  induction o as [|[k0 v0] r IH]; cbn [set map fst]; intros Hnd.
  - constructor; [intros []|constructor].
  - inversion Hnd as [|? ? Hnotin Hnd']; subst.
    destruct (String.eqb_spec k0 k); cbn [map fst].
    + constructor; assumption.
    + constructor; [|apply IH; exact Hnd'].
      intros Hin. destruct (set_keys_in r k v k0 Hin) as [->|Hin']; [congruence|contradiction].
Qed.

Lemma fromEntries_NoDup (entries : list (string * string)) :
  NoDup (map fst (fromEntries entries)).
Proof.
  unfold fromEntries.
  assert (H : forall o, NoDup (map fst o) ->
                        NoDup (map fst (fold_left (fun o kv => set o (fst kv) (snd kv))
                                          entries o))).
  { induction entries as [|kv r IH]; intros o Ho; [exact Ho|].
    cbn [fold_left]. apply IH. apply set_NoDup. exact Ho. }
  apply H. constructor.
Qed.

(** The identifiers of the registry are unique. *)
Lemma API_KEYS_NoDup (env : Env) : NoDup (map fst (API_KEYS env)).
Proof. apply fromEntries_NoDup. Qed.

End Registry.

(** ** The directory *)

(** C9, as stated, fails on the format: every line starts with a dash and
    a space in front of the identifier. *)
Lemma C9_counterexample_dash_prefix :
  map fst (API_KEYS [("ACTION_NETWORK_API_KEY_TEAM_A", "secret-a")]) = ["TEAM_A"]
  /\ body (directory_handler (API_KEYS [("ACTION_NETWORK_API_KEY_TEAM_A", "secret-a")]))
     = Text "- TEAM_A"
  /\ body (directory_handler (API_KEYS [("ACTION_NETWORK_API_KEY_TEAM_A", "secret-a")]))
     <> Text (JSString.join (String newline EmptyString)
                (map fst (API_KEYS [("ACTION_NETWORK_API_KEY_TEAM_A", "secret-a")]))).
Proof.
  split; [reflexivity|]. split; [reflexivity|]. vm_compute. discriminate.
Qed.

(** C9, amended.  For every environment the directory answers with status
    200 and the lines joined by newlines, one line for each identifier of
    the registry and no other: the identifiers are unique, and the lines
    are, up to order, the identifiers with ["- "] in front.  When no
    identifier contains a newline, splitting the body at the newlines gives
    back exactly these lines, none of which is blank. *)
Theorem C9_directory_lines (env : Env) :
  let ids := map fst (API_KEYS env) in
  NoDup ids
  /\ exists lines,
       directory_handler (API_KEYS env)
       = text (JSString.join (String newline EmptyString) lines) 200
       /\ Permutation lines (map (fun id => ("- " ++ id)%string) ids)
       /\ (forall line, In line lines -> line <> EmptyString)
       /\ (ids <> [] ->
           (forall id, In id ids -> JSString.contains newline id = false) ->
           JSString.split newline (JSString.join (String newline EmptyString) lines) = lines).
Proof.
  cbn zeta. split; [apply API_KEYS_NoDup|].
  exists (map (fun key => ("- " ++ key)%string) (JSObject.keys (API_KEYS env))).
  split; [reflexivity|]. split; [|split].
  - apply Permutation_map. apply keys_perm.
  - intros line Hin. apply in_map_iff in Hin as (key & <- & _). discriminate.
  - intros Hne Hids. apply split_join.
    { intros Hnil. apply map_eq_nil in Hnil. apply Hne.
      apply Permutation_nil. rewrite <- Hnil. apply keys_perm. }
    intros s Hin. apply in_map_iff in Hin as (key & <- & Hk).
    cbn [append JSString.contains]. cbn.
    apply Hids. apply (Permutation_in _ (keys_perm (API_KEYS env))). exact Hk.
Qed.

Lemma C9_directory_lines_witness :
  exists lines,
    directory_handler (API_KEYS [("ACTION_NETWORK_API_KEY_TEAM_A", "secret-a");
                                 ("PATH", "/usr/bin");
                                 ("ACTION_NETWORK_API_KEY_TEAM_B", "secret-b")])
    = text (JSString.join (String newline EmptyString) lines) 200
    /\ JSString.split newline (JSString.join (String newline EmptyString) lines) = lines.
Proof.
  destruct (C9_directory_lines [("ACTION_NETWORK_API_KEY_TEAM_A", "secret-a");
                                ("PATH", "/usr/bin");
                                ("ACTION_NETWORK_API_KEY_TEAM_B", "secret-b")])
    as (_ & lines & Hd & _ & _ & Hs).
  exists lines. split; [exact Hd|]. apply Hs.
  - discriminate.
  - intros id [<-|[<-|[]]]; reflexivity.
Defined.

(** ** The statements at concrete inputs *)

Lemma utcHost_clockValid : clockValid utcHost.
Proof. intros n. cbn. unfold JSDate.maxTime. lia. Qed.

Lemma C2_paginated_fetch_witness :
  exists w' reqs,
    fetchAllEventsForCalendar utcHost oneKey "TEAM_A" (map (Json 200) twoPages ++ [])%list world0
    = (w', Fulfilled [openEndedEvent; closedEvent])
    /\ requests w' = (requests world0 ++ reqs)%list
    /\ List.length reqs = 2%nat
    /\ Forall2 (requestFor (JSObject.Str "secret-a"))
         [API_URL; "https://actionnetwork.org/api/v2/events?page=2"] reqs.
Proof.
  exact (C2_paginated_fetch utcHost oneKey "TEAM_A" 200 twoPages [] world0
           utcHost_clockValid eq_refl).
Defined.

Lemma C3_flattened_in_request_order_witness :
  exists perFeed,
    [ snd (fetchAllEventsForCalendar utcHost twoKeys "TEAM_A"
             (answersFor 0 slowFastSchedule) world0);
      snd (fetchAllEventsForCalendar utcHost twoKeys "TEAM_B"
             (answersFor 1 slowFastSchedule) world0) ]
    = map Fulfilled perFeed
    /\ Forall2 (storedFrom utcHost) (List.concat perFeed) (cal_events slowFastCalendar).
Proof.
  exact (C3_flattened_in_request_order utcHost twoKeys ["TEAM_A"; "TEAM_B"] None
           slowFastSchedule world0 slowFastWorld slowFastCalendar
           utcHost_clockValid eq_refl).
Defined.


(* ================================================================== *)
(** * Part III: further properties of the source                        *)
(* ================================================================== *)

(** ** The registry: from the environment to the lookup *)

Section RegistryLookup.
Import JSObject.

Lemma substring_all (s : string) : String.substring 0 (String.length s) s = s.
Proof.
  induction s as [|c r IH]; [reflexivity|].
  cbn [String.length String.substring]. rewrite IH. reflexivity.
Qed.

Lemma substringFrom_append (p r : string) :
  JSString.substringFrom (String.length p) (p ++ r)%string = r.
Proof.
  unfold JSString.substringFrom. induction p as [|c p IH].
  - cbn [String.length append]. rewrite Nat.sub_0_r. apply substring_all.
  - cbn [String.length append String.substring].
    cbn [String.length append] in IH.
    replace (S (String.length (p ++ r)) - S (String.length p))%nat
      with (String.length (p ++ r) - String.length p)%nat by lia.
    exact IH.
Qed.

Lemma startsWith_append (p r : string) : JSString.startsWith p (p ++ r)%string = true.
Proof.
  unfold JSString.startsWith. induction p as [|c p IH]; [destruct r; reflexivity|].
  cbn [append String.prefix]. destruct (ascii_dec c c); [exact IH|congruence].
Qed.

Lemma startsWith_inv (p s : string) :
  JSString.startsWith p s = true -> exists r, s = (p ++ r)%string.
Proof.
  unfold JSString.startsWith. revert s. induction p as [|c p IH]; intros s H.
  - exists s. reflexivity.
  - destruct s as [|c' s]; [discriminate|].
    cbn [String.prefix] in H. destruct (ascii_dec c c'); [|discriminate].
    subst c'. destruct (IH s H) as (r & ->). exists r. reflexivity.
Qed.

Lemma getOwn_set_same (o : Obj) (k v : string) : getOwn (set o k v) k = Some v.
Proof.
  induction o as [|[k0 v0] r IH]; cbn [set getOwn].
  - rewrite String.eqb_refl. reflexivity.
  - destruct (String.eqb_spec k0 k) as [E|E]; cbn [getOwn].
    + rewrite E, String.eqb_refl. reflexivity.
    + destruct (String.eqb_spec k0 k); [contradiction|exact IH].
Qed.

Lemma getOwn_set_other (o : Obj) (k v k' : string) :
  k' <> k -> getOwn (set o k v) k' = getOwn o k'.
Proof.
  intros Hne. induction o as [|[k0 v0] r IH]; cbn [set getOwn].
  - destruct (String.eqb_spec k k'); [congruence|reflexivity].
  - destruct (String.eqb_spec k0 k) as [E|E]; cbn [getOwn].
    + destruct (String.eqb_spec k0 k'); [congruence|reflexivity].
    + rewrite IH. reflexivity.
Qed.

Lemma getOwn_None_iff (o : Obj) (k : string) :
  getOwn o k = None <-> ~ In k (map fst o).
Proof.
  induction o as [|[k0 v0] r IH]; cbn [getOwn map fst In].
  - split; [intros _ []|reflexivity].
  - destruct (String.eqb_spec k0 k) as [E|E].
    + split; [discriminate|]. intros H. exfalso. apply H. left. exact E.
    + rewrite IH. split; [intros H [H'|H']; [contradiction|apply H, H']|].
      intros H H'. apply H. right. exact H'.
Qed.

Lemma fold_put_other (entries : list (string * string)) : forall o k,
  ~ In k (map fst entries) ->
  getOwn (fold_left putEntry entries o) k = getOwn o k.
Proof.
  induction entries as [|[k0 v0] r IH]; intros o k Hnot; [reflexivity|].
  cbn [fold_left]. cbn [map fst In] in Hnot.
  rewrite IH by (intros H; apply Hnot; right; exact H).
  unfold putEntry. cbn [fst snd]. apply getOwn_set_other.
  intros ->. apply Hnot. left. reflexivity.
Qed.

(** The last entry for a key is the one that stays. *)
Lemma fromEntries_last (before after : list (string * string)) (k v : string) :
  ~ In k (map fst after) ->
  getOwn (fromEntries (before ++ (k, v) :: after)%list) k = Some v.
Proof.
  intros Hnot. unfold fromEntries. fold putEntry.
  rewrite fold_left_app. cbn [fold_left].
  rewrite (fold_put_other after _ k Hnot).
  unfold putEntry. cbn [fst snd]. apply getOwn_set_same.
Qed.

Lemma set_keys_iff (o : Obj) (k v k' : string) :
  In k' (map fst (set o k v)) <-> k' = k \/ In k' (map fst o).
Proof.
  split; [apply set_keys_in|].
  induction o as [|[k0 v0] r IH]; cbn [set map fst In].
  - intros [->|[]]. left. reflexivity.
  - destruct (String.eqb_spec k0 k) as [E|E]; cbn [map fst In].
    + intros [->|[H|H]]; [left; exact E|left; exact H|right; exact H].
    + intros [->|[H|H]]; [right; apply IH; left; reflexivity|left; exact H|].
      right. apply IH. right. exact H.
Qed.

Lemma fromEntries_keys (entries : list (string * string)) (k : string) :
  In k (map fst (fromEntries entries)) <-> In k (map fst entries).
Proof.
  unfold fromEntries. fold putEntry.
  assert (H : forall o, In k (map fst (fold_left putEntry entries o))
                        <-> In k (map fst o) \/ In k (map fst entries)).
  { induction entries as [|[k0 v0] r IH]; intros o.
    - cbn [fold_left map In]. tauto.
    - cbn [fold_left map fst In]. rewrite IH. unfold putEntry. cbn [fst snd].
      rewrite set_keys_iff. split.
      + intros [[->|H]|H]; auto.
      + intros [H|[<-|H]]; auto. }
  rewrite H. cbn [map In]. tauto.
Qed.

Lemma keyEntries_app (env1 env2 : Env) :
  keyEntries (env1 ++ env2)%list = (keyEntries env1 ++ keyEntries env2)%list.
Proof. unfold keyEntries. rewrite filter_app, map_app. reflexivity. Qed.

Lemma keyEntries_variable (feed value : string) (env : Env) :
  keyEntries ((variableOf feed, value) :: env) = (feed, value) :: keyEntries env.
Proof.
  unfold keyEntries, variableOf. cbn [filter fst].
  rewrite startsWith_append. cbn [map fst snd].
  rewrite substringFrom_append. reflexivity.
Qed.

Lemma keyEntries_In (env : Env) (feed : string) :
  In feed (map fst (keyEntries env)) <-> In (variableOf feed) (map fst env).
Proof.
  unfold keyEntries. rewrite !in_map_iff. split.
  - intros ([k v] & Hk & Hin). cbn [fst] in Hk.
    apply in_map_iff in Hin as ([name value] & [= <- <-] & Hin).
    apply filter_In in Hin as (Hin & Hp). cbn [fst] in *.
    destruct (startsWith_inv _ _ Hp) as (r & ->).
    rewrite (substringFrom_append API_KEY_PREFIX r
             : JSString.substringFrom 23 (API_KEY_PREFIX ++ r)%string = r) in Hk.
    subst r.
    exists (variableOf feed, value). split; [reflexivity|exact Hin].
  - intros ([name value] & Hname & Hin). cbn [fst] in Hname. subst name.
    exists (feed, value). split; [reflexivity|].
    apply in_map_iff. exists (variableOf feed, value). split.
    + cbn [fst snd]. unfold variableOf. rewrite substringFrom_append. reflexivity.
    + apply filter_In. split; [exact Hin|]. apply startsWith_append.
Qed.

Lemma API_KEYS_keys_iff (env : Env) (feed : string) :
  In feed (map fst (API_KEYS env)) <-> In (variableOf feed) (map fst env).
Proof.
  unfold API_KEYS. fold (keyEntries env).
  rewrite fromEntries_keys. apply keyEntries_In.
Qed.

End RegistryLookup.

(** X1.  The identifiers of the registry are exactly the names of the
    environment variables that start with [ACTION_NETWORK_API_KEY_], with
    that prefix taken off: no other variable of the environment gets into
    the registry, and none with the prefix is left out. *)
Theorem registry_keys_are_prefixed_variables (env : Env) (feed : string) :
  In feed (map fst (API_KEYS env)) <-> In (variableOf feed) (map fst env).
Proof.
  unfold API_KEYS. fold (keyEntries env).
  rewrite fromEntries_keys. apply keyEntries_In.
Qed.

(** X2.  In an environment, where every variable name is there once,
    looking a feed up in the registry gives the value of its environment
    variable, and gives nothing of its own when there is no such
    variable. *)
Theorem registry_lookup (env : Env) (feed : string) :
  distinctNames env ->
  (forall value,
      In (variableOf feed, value) env ->
      JSObject.getOwn (API_KEYS env) feed = Some value)
  /\ (~ In (variableOf feed) (map fst env) ->
      JSObject.getOwn (API_KEYS env) feed = None).
Proof.
  intros Hd. split.
  - intros value Hin.
    destruct (in_split _ _ Hin) as (before & after & ->).
    assert (Hnot : ~ In (variableOf feed) (map fst after)).
    { unfold distinctNames in Hd. rewrite map_app in Hd. cbn [map fst] in Hd.
      apply NoDup_remove_2 in Hd. intros H. apply Hd. apply in_or_app. right. exact H. }
    unfold API_KEYS. fold (keyEntries (before ++ (variableOf feed, value) :: after)%list).
    rewrite keyEntries_app, keyEntries_variable.
    apply fromEntries_last. rewrite keyEntries_In. exact Hnot.
  - intros Hnot. apply getOwn_None_iff.
    rewrite API_KEYS_keys_iff. exact Hnot.
Qed.

Lemma registry_lookup_witness :
  JSObject.getOwn
    (API_KEYS [("ACTION_NETWORK_API_KEY_TEAM_A", "secret-a"); ("HOME", "/root");
               ("ACTION_NETWORK_API_KEY_TEAM_B", "secret-b")])
    "TEAM_B" = Some "secret-b".
Proof.
  apply (proj1 (registry_lookup
                  [("ACTION_NETWORK_API_KEY_TEAM_A", "secret-a"); ("HOME", "/root");
                   ("ACTION_NETWORK_API_KEY_TEAM_B", "secret-b")] "TEAM_B"
                  ltac:(unfold distinctNames; cbn [map fst];
                        repeat (constructor; [cbn; intuition discriminate|]);
                        constructor))).
  cbn. auto.
Defined.

(** X3.  Whether the handler takes a feed as configured is decided by the
    value of its environment variable: a non-empty value passes, and a
    variable that is set to the empty string counts as not configured. *)
Theorem validation_by_variable (env before after : Env) (feed value : string) :
  env = (before ++ (variableOf feed, value) :: after)%list ->
  ~ In (variableOf feed) (map fst after) ->
  unconfigured (API_KEYS env) feed = String.eqb value EmptyString.
Proof.
  intros -> Hnot. unfold unconfigured, JSObject.get, API_KEYS.
  fold (keyEntries (before ++ (variableOf feed, value) :: after)%list).
  rewrite keyEntries_app, keyEntries_variable.
  rewrite fromEntries_last by (rewrite keyEntries_In; exact Hnot).
  cbn [JSObject.truthy]. unfold JSString.truthy. apply negb_involutive.
Qed.

Lemma validation_by_variable_witness :
  unconfigured (API_KEYS [("ACTION_NETWORK_API_KEY_TEAM_A", ""); ("HOME", "/root")]) "TEAM_A"
  = true.
Proof.
  apply (validation_by_variable
           [("ACTION_NETWORK_API_KEY_TEAM_A", ""); ("HOME", "/root")]
           [] [("HOME", "/root")] "TEAM_A" "" eq_refl).
  cbn. intros [H|[]]. discriminate.
Defined.

(** ** The directory shows names only *)

Section DirectoryNames.
Import JSObject.

Lemma set_names (o1 o2 : Obj) (k v1 v2 : string) :
  map fst o1 = map fst o2 -> map fst (set o1 k v1) = map fst (set o2 k v2).
Proof.
  revert o2. induction o1 as [|[k1 w1] r1 IH]; intros [|[k2 w2] r2] H; try discriminate.
  - reflexivity.
  - cbn [map fst] in H. injection H as -> Hr.
    cbn [set]. destruct (String.eqb k2 k); cbn [map fst].
    + rewrite Hr. reflexivity.
    + rewrite (IH r2 Hr). reflexivity.
Qed.

Lemma fold_put_names (es1 : list (string * string)) : forall es2 o1 o2,
  map fst es1 = map fst es2 -> map fst o1 = map fst o2 ->
  map fst (fold_left putEntry es1 o1) = map fst (fold_left putEntry es2 o2).
Proof.
  induction es1 as [|[k1 v1] r1 IH]; intros [|[k2 v2] r2] o1 o2 He Ho; try discriminate.
  - exact Ho.
  - cbn [map fst] in He. injection He as -> Hr.
    cbn [fold_left]. apply IH; [exact Hr|].
    unfold putEntry. cbn [fst snd]. apply set_names. exact Ho.
Qed.

Lemma keyEntries_names (env1 : Env) : forall env2,
  map fst env1 = map fst env2 -> map fst (keyEntries env1) = map fst (keyEntries env2).
Proof.
  induction env1 as [|[n1 v1] r1 IH]; intros [|[n2 v2] r2] H; try discriminate.
  - reflexivity.
  - cbn [map fst] in H. injection H as -> Hr.
    unfold keyEntries in *. cbn [filter fst].
    destruct (JSString.startsWith API_KEY_PREFIX n2); cbn [map fst]; rewrite (IH r2 Hr);
      reflexivity.
Qed.

End DirectoryNames.

(** X4.  The directory shows names only: two environments with the same
    variable names, whatever the values of the variables, get the same
    answer, so no token can be read off it. *)
Theorem directory_independent_of_tokens (env1 env2 : Env) :
  map fst env1 = map fst env2 ->
  directory_handler (API_KEYS env1) = directory_handler (API_KEYS env2).
Proof.
  intros H.
  assert (E : map fst (API_KEYS env1) = map fst (API_KEYS env2)).
  { unfold API_KEYS, JSObject.fromEntries.
    fold (keyEntries env1). fold (keyEntries env2). fold putEntry.
    apply fold_put_names; [apply keyEntries_names; exact H|reflexivity]. }
  unfold directory_handler, JSObject.keys. rewrite E. reflexivity.
Qed.

Lemma directory_independent_of_tokens_witness :
  directory_handler (API_KEYS [("ACTION_NETWORK_API_KEY_TEAM_A", "secret-a"); ("HOME", "/root")])
  = directory_handler (API_KEYS [("ACTION_NETWORK_API_KEY_TEAM_A", "other"); ("HOME", "/tmp")]).
Proof.
  exact (directory_independent_of_tokens
           [("ACTION_NETWORK_API_KEY_TEAM_A", "secret-a"); ("HOME", "/root")]
           [("ACTION_NETWORK_API_KEY_TEAM_A", "other"); ("HOME", "/tmp")] eq_refl).
Defined.

(** ** The answers of the events handler *)

(** X5.  The events handler answers in one of two ways.  Either with
    status 400 and a plain text, and then it has read no clock and sent no
    request; or with status 200, the two calendar headers and the
    serialized calendar, and then every feed of the selection had passed
    the validation. *)
Theorem events_handler_answers (h : Host) (keys : JSObject.Obj)
    (nameOverride : option string) (feeds : option (list string))
    (schedule : list Delivery) (w w' : World) (response : Response) :
  events_handler h keys nameOverride feeds schedule w = (w', Returned response) ->
  (status response = 400 /\ w' = w /\ exists message, body response = Text message)
  \/ (status response = 200
      /\ headers response = [("Content-Type", "text/calendar");
                             ("Content-Disposition", "attachment; filename=events.ics")]
      /\ (exists calendar, body response = Serialized calendar)
      /\ exists selection,
           feeds = Some selection /\ find (unconfigured keys) selection = None).
Proof.
  unfold events_handler. destruct feeds as [selection|].
  - destruct (find (unconfigured keys) selection) as [feed|] eqn:Hf.
    + intros [= <- <-]. left. cbn. eauto.
    + destruct (generateICalForFeeds h keys selection nameOverride schedule w) as [w1 r].
      destruct r as [|calendar|e]; try discriminate.
      intros [= <- <-]. right. cbn. eauto 8.
  - intros [= <- <-]. left. cbn. eauto.
Qed.

Lemma events_handler_answers_witness :
  (400 = 400 /\ world0 = world0
   /\ exists message, Text "Feed TEAM_C is not configured in API keys." = Text message)
  \/ (400 = 200
      /\ @nil (string * string)
         = [("Content-Type", "text/calendar");
            ("Content-Disposition", "attachment; filename=events.ics")]
      /\ (exists calendar, Text "Feed TEAM_C is not configured in API keys."
                           = Serialized calendar)
      /\ exists selection,
           Some ["TEAM_A"; "TEAM_C"] = Some selection
           /\ find (unconfigured oneKey) selection = None).
Proof.
  exact (events_handler_answers utcHost oneKey None (Some ["TEAM_A"; "TEAM_C"]) [] world0
           world0 (text "Feed TEAM_C is not configured in API keys." 400) eq_refl).
Defined.

(** ** The requests that are sent *)

Section RequestLog.
Variable h : Host.
Variable P : JSObject.Value -> Prop.


Lemma extends_refl (w : World) : extendsWith P 0 w w.
Proof. exists []. rewrite app_nil_r. repeat split; auto. Qed.

Lemma extends_trans (n m : nat) (w1 w2 w3 : World) :
  extendsWith P n w1 w2 -> extendsWith P m w2 w3 -> extendsWith P (n + m) w1 w3.
Proof.
  intros (new1 & E1 & L1 & F1) (new2 & E2 & L2 & F2).
  exists (new1 ++ new2)%list. rewrite E2, E1, app_assoc. repeat split.
  - rewrite length_app. lia.
  - apply Forall_app. split; assumption.
Qed.

Lemma extends_weaken (n m : nat) (w w' : World) :
  (n <= m)%nat -> extendsWith P n w w' -> extendsWith P m w w'.
Proof. intros Hle (new & E & L & F). exists new. repeat split; auto. lia. Qed.

Lemma sendRequest_extends (token : JSObject.Value) (url : string)
    (events : list ActionNetworkEvent) (w : World) :
  P token -> extendsWith P 1 w (fst (sendRequest h token url events w)).
Proof.
  intros Ht. unfold sendRequest.
  destruct (JSDate.toISOString (DateObject.now h (ticks w))); cbn [fst].
  - eexists. cbn [requests]. split; [reflexivity|]. split; [apply le_n|].
    constructor; [exact Ht|constructor].
  - apply (extends_weaken 0 1); [lia|]. exists []. cbn [requests].
    rewrite app_nil_r. repeat split; auto.
Qed.

Lemma resume_extends (token : JSObject.Value) (events : list ActionNetworkEvent)
    (o : FetchOutcome) (w : World) :
  P token -> extendsWith P 1 w (fst (resume h token events o w)).
Proof.
  intros Ht. unfold resume.
  destruct o as [|st|st data]; cbn [fst];
    try (apply (extends_weaken 0 1); [lia|apply extends_refl]).
  destruct (embedded_events data); cbn [fst];
    try (apply (extends_weaken 0 1); [lia|apply extends_refl]).
  destruct (links_next data) as [[href|]|]; cbn [fst];
    try (apply (extends_weaken 0 1); [lia|apply extends_refl]).
  apply sendRequest_extends. exact Ht.
Qed.

Lemma Forall_replace {A} (Q : A -> Prop) (l : list A) : forall n x,
  Forall Q l -> Q x -> Forall Q (replace n x l).
Proof.
  induction l as [|y r IH]; intros n x Hl Hx; [destruct n; constructor|].
  inversion Hl; subst. destruct n; cbn [replace]; constructor; auto.
Qed.

Lemma deliver_extends (d : Delivery) (p : Pool) (w : World) :
  tokensInWith P p ->
  extendsWith P 1 w (fst (deliver h d p w)) /\ tokensInWith P (snd (deliver h d p w)).
Proof.
  intros Hp. unfold deliver.
  destruct (nth_error (tasks p) (d_feed d)) as [[token f]|] eqn:Hn;
    [|split; [apply (extends_weaken 0 1); [lia|apply extends_refl]|exact Hp]].
  assert (Ht : P token).
  { apply nth_error_In in Hn. unfold tokensInWith in Hp. rewrite Forall_forall in Hp.
    apply (Hp _ Hn). }
  destruct f as [events| |];
    try (split; [apply (extends_weaken 0 1); [lia|apply extends_refl]|exact Hp]).
  pose proof (resume_extends token events (d_outcome d) w Ht) as He.
  destruct (resume h token events (d_outcome d) w) as [w1 f1]. cbn [fst snd] in *.
  split; [exact He|]. unfold tokensInWith. cbn [tasks].
  apply Forall_replace; [exact Hp|exact Ht].
Qed.

Lemma runSchedule_extends (schedule : list Delivery) : forall p w,
  tokensInWith P p ->
  extendsWith P (List.length schedule) w (fst (runSchedule h schedule p w)).
Proof.
  induction schedule as [|d rest IH]; intros p w Hp; [apply extends_refl|].
  cbn [runSchedule List.length].
  destruct (deliver_extends d p w Hp) as (He & Hp').
  destruct (deliver h d p w) as [w1 p1]. cbn [fst snd] in *.
  apply (extends_trans 1 (List.length rest) w w1); [exact He|apply IH; exact Hp'].
Qed.

Lemma startAll_extends (keys : JSObject.Obj) (calendarNames : list string) : forall p w,
  (forall name, In name calendarNames -> P (JSObject.get keys name)) ->
  tokensInWith P p ->
  extendsWith P (List.length calendarNames) w (fst (startAll h keys calendarNames p w))
  /\ tokensInWith P (snd (startAll h keys calendarNames p w)).
Proof.
  induction calendarNames as [|name rest IH]; intros p w Hnames Hp.
  - split; [apply extends_refl|exact Hp].
  - cbn [startAll List.length]. unfold startFetch.
    pose proof (sendRequest_extends (JSObject.get keys name) API_URL [] w
                  (Hnames name (or_introl eq_refl))) as He.
    destruct (sendRequest h (JSObject.get keys name) API_URL [] w) as [w1 f].
    cbn [fst] in He.
    destruct (IH {| tasks := (tasks p ++ [ {| task_token := JSObject.get keys name;
                                               task_fiber := f |} ])%list;
                    first_rejection := noteRejection (first_rejection p) f |} w1)
      as (He' & Hp').
    + intros n Hn. apply Hnames. right. exact Hn.
    + unfold tokensInWith. cbn [tasks]. apply Forall_app. split; [exact Hp|].
      constructor; [|constructor]. cbn [task_token].
      apply Hnames. left. reflexivity.
    + split; [|exact Hp'].
      apply (extends_trans 1 (List.length rest) w w1); assumption.
Qed.

Lemma generateICalForFeeds_extends (keys : JSObject.Obj) (calendarNames : list string)
    (overrideCalendarName : option string) (schedule : list Delivery) (w : World) :
  (forall name, In name calendarNames -> P (JSObject.get keys name)) ->
  extendsWith P (List.length calendarNames + List.length schedule) w
    (fst (generateICalForFeeds h keys calendarNames overrideCalendarName schedule w)).
Proof.
  intros Hnames. unfold generateICalForFeeds, awaitAll.
  destruct (startAll_extends keys calendarNames initialPool w Hnames) as (He & Hp);
    [constructor|].
  destruct (startAll h keys calendarNames initialPool w) as [w1 p1]. cbn [fst snd] in *.
  pose proof (runSchedule_extends schedule p1 w1 Hp) as He'.
  destruct (runSchedule h schedule p1 w1) as [w2 p2]. cbn [fst] in *.
  apply (extends_trans _ _ w w1 w2); assumption.
Qed.

End RequestLog.

(** X6.  Whatever the handler is asked and whatever the upstream answers,
    the requests it sends are added to those sent before, there is at most
    one for each feed of the selection and one more for each answer
    delivered, and each carries the token the registry holds for a feed of
    the selection, a token that is not empty or undefined. *)
Theorem requests_of_the_handler (h : Host) (keys : JSObject.Obj)
    (nameOverride : option string) (feeds : option (list string))
    (schedule : list Delivery) (w : World) :
  let selection := match feeds with Some s => s | None => [] end in
  exists new,
    requests (fst (events_handler h keys nameOverride feeds schedule w))
    = (requests w ++ new)%list
    /\ (List.length new <= List.length selection + List.length schedule)%nat
    /\ Forall (fun r => validatedToken keys selection (req_token r)) new.
Proof.
  cbn zeta. unfold events_handler.
  assert (Hnone : forall n, extendsWith (validatedToken keys
                                          match feeds with Some s => s | None => [] end)
                              n w w).
  { intros n. apply (extends_weaken _ 0 n); [lia|apply extends_refl]. }
  destruct feeds as [selection|]; [|apply Hnone].
  destruct (find (unconfigured keys) selection) as [feed|] eqn:Hf; [apply Hnone|].
  pose proof (generateICalForFeeds_extends h (validatedToken keys selection) keys selection
                nameOverride schedule w) as He.
  destruct (generateICalForFeeds h keys selection nameOverride schedule w) as [w1 r].
  cbn [fst] in *. apply He.
  intros name Hin. split; [|exists name; auto].
  pose proof (find_none _ _ Hf name Hin) as Hu. unfold unconfigured in Hu.
  apply negb_false_iff in Hu. exact Hu.
Qed.

(** ** When a fetch returns *)

Section FetchReturns.
Variable h : Host.

Lemma sendRequest_cases (token : JSObject.Value) (url : string)
    (events : list ActionNetworkEvent) (w : World) :
  (exists r, sendRequest h token url events w
             = ({| ticks := S (ticks w); requests := (requests w ++ [r])%list |},
                Awaiting events))
  \/ (exists w1 e, sendRequest h token url events w = (w1, Rejected e)).
Proof.
  unfold sendRequest. destruct (JSDate.toISOString (DateObject.now h (ticks w))); eauto.
Qed.

Lemma paginated_nonempty (pages : list ActionNetworkEventList) :
  paginated pages = true -> pages <> [].
Proof. destruct pages; [discriminate|discriminate]. Qed.

Lemma fetchLoop_fulfilled (token : JSObject.Value) (answers : list FetchOutcome) :
  forall events w w' result,
    fetchLoop h token events answers w = (w', Fulfilled result) ->
    exists pages extra,
      answers = (map pageAnswer pages ++ extra)%list
      /\ paginated (map snd pages) = true
      /\ result = (events ++ List.concat (map batchOf (map snd pages)))%list
      /\ List.length (requests w') = (List.length (requests w) + List.length pages - 1)%nat.
Proof.
  induction answers as [|o rest IH]; intros events w w' result; [discriminate|].
  cbn [fetchLoop]. destruct o as [|st|st data]; cbn [resume]; try discriminate.
  destruct (embedded_events data) as [batch|] eqn:Hb; [|discriminate].
  destruct (links_next data) as [[href|]|] eqn:Hl; [| |discriminate].
  - destruct (sendRequest_cases token href (events ++ batch)%list w)
      as [(r & ->)|(w1 & e & ->)]; [|discriminate].
    intros Hloop. destruct (IH _ _ _ _ Hloop) as (pages & extra & -> & Hp & -> & Hlen).
    exists ((st, data) :: pages), extra.
    pose proof (paginated_nonempty _ Hp) as Hne.
    destruct pages as [|page pages']; [contradiction|].
    split; [reflexivity|]. split; [|split].
    + cbn [map snd paginated] in *. rewrite Hb, Hl. exact Hp.
    + cbn [map snd List.concat].
      replace (batchOf data) with batch by (unfold batchOf; rewrite Hb; reflexivity).
      rewrite <- app_assoc. reflexivity.
    + rewrite Hlen. cbn [requests List.length]. rewrite length_app. cbn [List.length]. lia.
  - intros [= <- <-]. exists [(st, data)], rest.
    split; [reflexivity|]. split; [|split].
    + cbn [map snd paginated]. rewrite Hb, Hl. reflexivity.
    + cbn [map snd List.concat]. unfold batchOf. rewrite Hb, app_nil_r. reflexivity.
    + cbn [List.length]. lia.
Qed.

End FetchReturns.

(** X7.  [fetchAllEventsForCalendar] returns only off a complete
    pagination: if it returns, the answers it was given begin with pages
    that each carry a batch, all but the last with a next-page link and the
    last without; what it returns is the batches of exactly these pages in
    order, and it has sent one request for each of them.  It never returns
    the events of a feed that was cut short. *)
Theorem fetch_returns_only_complete (h : Host) (keys : JSObject.Obj) (calendarName : string)
    (answers : list FetchOutcome) (w w' : World) (result : list ActionNetworkEvent) :
  fetchAllEventsForCalendar h keys calendarName answers w = (w', Fulfilled result) ->
  exists pages extra,
    answers = (map pageAnswer pages ++ extra)%list
    /\ paginated (map snd pages) = true
    /\ result = List.concat (map batchOf (map snd pages))
    /\ List.length (requests w') = (List.length (requests w) + List.length pages)%nat.
Proof.
  unfold fetchAllEventsForCalendar, startFetch.
  destruct (sendRequest_cases h (JSObject.get keys calendarName) API_URL [] w)
    as [(r & ->)|(w1 & e & ->)]; [|discriminate].
  intros Hloop.
  destruct (fetchLoop_fulfilled h _ _ _ _ _ _ Hloop) as (pages & extra & -> & Hp & -> & Hlen).
  exists pages, extra. repeat split; try assumption.
  rewrite Hlen. cbn [requests]. rewrite length_app. cbn [List.length].
  pose proof (paginated_nonempty _ Hp) as Hne.
  destruct pages; [contradiction|]. cbn [List.length]. lia.
Qed.

Lemma fetch_returns_only_complete_witness :
  exists pages extra,
    (map (Json 200) twoPages ++ [NetworkFailure])%list = (map pageAnswer pages ++ extra)%list
    /\ paginated (map snd pages) = true
    /\ [openEndedEvent; closedEvent] = List.concat (map batchOf (map snd pages))
    /\ List.length
         (requests (fst (fetchAllEventsForCalendar utcHost oneKey "TEAM_A"
                           (map (Json 200) twoPages ++ [NetworkFailure])%list world0)))
       = (List.length (requests world0) + List.length pages)%nat.
Proof.
  exact (fetch_returns_only_complete utcHost oneKey "TEAM_A"
           (map (Json 200) twoPages ++ [NetworkFailure])%list world0
           (fst (fetchAllEventsForCalendar utcHost oneKey "TEAM_A"
                   (map (Json 200) twoPages ++ [NetworkFailure])%list world0))
           [openEndedEvent; closedEvent] eq_refl).
Defined.

(** ** When the handler answers with a calendar *)

Lemma nth_error_imapFrom {A B} (f : nat -> A -> B) (l : list A) : forall k i,
  nth_error (imapFrom f k l) i = option_map (f (k + i)%nat) (nth_error l i).
Proof.
  induction l as [|x r IH]; intros k i; [destruct i; reflexivity|].
  destruct i as [|i]; cbn [imapFrom nth_error option_map].
  - rewrite Nat.add_0_r. reflexivity.
  - rewrite IH. replace (S k + i)%nat with (k + S i)%nat by lia. reflexivity.
Qed.

Lemma allFulfilled_nth (ts : list Task) : forall results i t,
  allFulfilled ts = Some results -> nth_error ts i = Some t ->
  exists events, task_fiber t = Fulfilled events.
Proof.
  induction ts as [|t0 r IH]; intros results i t Hall Hn; [destruct i; discriminate|].
  cbn [allFulfilled] in Hall.
  destruct (task_fiber t0) as [|events|] eqn:Hf; try discriminate.
  destruct (allFulfilled r) as [rest|] eqn:Hr; [|discriminate].
  destruct i as [|i]; cbn [nth_error] in Hn.
  - injection Hn as <-. eauto.
  - apply (IH rest i t eq_refl Hn).
Qed.

Lemma awaitAll_returned_complete (h : Host) (keys : JSObject.Obj)
    (calendarNames : list string) (schedule : list Delivery) (w w' : World)
    (allEvents : list (list ActionNetworkEvent)) :
  clockValid h ->
  awaitAll h keys calendarNames schedule w = (w', Returned allEvents) ->
  forall i name,
    nth_error calendarNames i = Some name ->
    exists pages extra,
      answersFor i schedule = (map pageAnswer pages ++ extra)%list
      /\ paginated (map snd pages) = true.
Proof.
  intros Hclock. unfold awaitAll.
  pose proof (startAll_tasks h Hclock keys calendarNames initialPool w) as Hs.
  destruct (startAll h keys calendarNames initialPool w) as [w1 p1]. cbn [snd] in Hs.
  pose proof (runSchedule_tasks h Hclock schedule p1 w1) as Hr.
  destruct (runSchedule h schedule p1 w1) as [w2 p2]. cbn [snd] in Hr.
  unfold Promise_all. destruct (first_rejection p2); [discriminate|].
  destruct (allFulfilled (tasks p2)) as [results|] eqn:Hall; [|discriminate].
  intros _ i name Hn.
  assert (Ht : nth_error (tasks p2) i
               = Some (advance h (answersFor i schedule)
                         {| task_token := JSObject.get keys name; task_fiber := Awaiting [] |})).
  { rewrite Hr, Hs. cbn [initialPool tasks app].
    rewrite nth_error_imapFrom, nth_error_map, Hn. reflexivity. }
  destruct (allFulfilled_nth _ _ _ _ Hall Ht) as (events & Hf).
  unfold advance in Hf. cbn [task_fiber task_token continueFiber] in Hf.
  destruct (fetchLoop h (JSObject.get keys name) [] (answersFor i schedule) world0)
    as [w0 f] eqn:Hloop.
  cbn [snd] in Hf. subst f.
  destruct (fetchLoop_fulfilled h _ _ _ _ _ _ Hloop) as (pages & extra & E & Hp & _).
  eauto.
Qed.

(** X8.  The handler answers with status 200 only when every feed of the
    selection was fetched to its end: for each feed, the answers addressed
    to it begin with a complete pagination, pages with a next-page link
    followed by one without.  No calendar is served while any feed is
    still waiting for a page. *)
Theorem calendar_only_after_all_feeds (h : Host) (keys : JSObject.Obj)
    (nameOverride : option string) (feeds : list string)
    (schedule : list Delivery) (w w' : World) (response : Response) :
  clockValid h ->
  events_handler h keys nameOverride (Some feeds) schedule w = (w', Returned response) ->
  status response = 200 ->
  forall i feed,
    nth_error feeds i = Some feed ->
    exists pages extra,
      answersFor i schedule = (map pageAnswer pages ++ extra)%list
      /\ paginated (map snd pages) = true.
Proof.
  intros Hclock. unfold events_handler.
  destruct (find (unconfigured keys) feeds).
  - intros [= <- <-]. discriminate.
  - unfold generateICalForFeeds.
    destruct (awaitAll h keys feeds schedule w) as [w1 r] eqn:Ha.
    destruct r as [|allEvents|e]; try discriminate.
    intros _ _. apply (awaitAll_returned_complete h keys feeds schedule w w1 allEvents Hclock Ha).
Qed.

Lemma calendar_only_after_all_feeds_witness :
  exists pages extra,
    answersFor 0 slowFastSchedule = (map pageAnswer pages ++ extra)%list
    /\ paginated (map snd pages) = true.
Proof.
  exact (calendar_only_after_all_feeds utcHost twoKeys None ["TEAM_A"; "TEAM_B"]
           slowFastSchedule world0 slowFastWorld
           {| status := 200;
              headers := [("Content-Type", "text/calendar");
                          ("Content-Disposition", "attachment; filename=events.ics")];
              body := Serialized slowFastCalendar |}
           utcHost_clockValid eq_refl eq_refl 0%nat "TEAM_A" eq_refl).
Defined.

(** ** The requests, one by one *)

Lemma imapFrom_shift {A B} (f : nat -> A -> B) (l : list A) : forall k,
  imapFrom f (S k) l = imapFrom (fun i x => f (S i) x) k l.
Proof.
  induction l as [|x r IH]; intros k; [reflexivity|].
  cbn [imapFrom]. f_equal. apply IH.
Qed.

Section ExactRequests.
Variable h : Host.
Hypothesis Hclock : clockValid h.

Lemma sendRequest_exact (token : JSObject.Value) (url : string)
    (events : list ActionNetworkEvent) (w : World) :
  sendRequest h token url events w
  = ({| ticks := S (ticks w);
        requests := (requests w ++ [requestAt h token url (ticks w)])%list |},
     Awaiting events).
Proof.
  unfold sendRequest, DateObject.now, JSDate.TimeClip, requestAt.
  destruct (Z.leb_spec (Z.abs (clock h (ticks w))) JSDate.maxTime) as [_|Hbad].
  - reflexivity.
  - specialize (Hclock (ticks w)). lia.
Qed.

Lemma fetchLoop_exact (token : JSObject.Value) (st : Z) :
  forall pages url events extra w,
    paginated pages = true ->
    fetchLoop h token events (map (Json st) pages ++ extra)%list
      (fst (sendRequest h token url events w))
    = ({| ticks := (ticks w + List.length pages)%nat;
          requests :=
            (requests w
             ++ imapFrom (fun i target => requestAt h token target (ticks w + i)%nat)
                  0%nat (targets url pages))%list |},
       Fulfilled (events ++ List.concat (map batchOf pages))%list).
Proof.
  induction pages as [|page rest IH]; intros url events extra w Hp; [discriminate|].
  rewrite sendRequest_exact. cbn [fst]. cbn [paginated] in Hp.
  destruct (embedded_events page) as [batch|] eqn:Hb; [|discriminate].
  destruct (links_next page) as [[href|]|] eqn:Hl; [| |discriminate].
  - destruct rest as [|page' rest']; [discriminate|].
    set (R := page' :: rest') in *.
    cbn [map app fetchLoop resume]. rewrite Hb, Hl.
    pose proof (IH href (events ++ batch)%list extra
                  {| ticks := S (ticks w);
                     requests := (requests w ++ [requestAt h token url (ticks w)])%list |} Hp)
      as Hloop.
    rewrite sendRequest_exact in *. cbn [fst ticks requests] in *.
    rewrite Hloop. f_equal.
    + f_equal; [cbn [List.length]; lia|].
      cbn [targets imapFrom]. rewrite Hl, <- app_assoc. cbn [app].
      rewrite Nat.add_0_r. f_equal. f_equal.
      rewrite imapFrom_shift. apply imapFrom_ext. intros j target _.
      f_equal. lia.
    + cbn [List.concat]. replace (batchOf page) with batch
        by (unfold batchOf; rewrite Hb; reflexivity).
      rewrite app_assoc. reflexivity.
  - destruct rest as [|page' rest']; [|discriminate].
    cbn [map app fetchLoop resume]. rewrite Hb, Hl.
    cbn [targets imapFrom List.length List.concat map]. rewrite Hl.
    replace (batchOf page) with batch by (unfold batchOf; rewrite Hb; reflexivity).
    rewrite !Nat.add_0_r, app_nil_r. f_equal. f_equal. lia.
Qed.

Lemma startAll_exact (keys : JSObject.Obj) (calendarNames : list string) : forall p w,
  startAll h keys calendarNames p w
  = ({| ticks := (ticks w + List.length calendarNames)%nat;
        requests :=
          (requests w
           ++ imapFrom (fun i name =>
                          requestAt h (JSObject.get keys name) API_URL (ticks w + i)%nat)
                0%nat calendarNames)%list |},
     {| tasks :=
          (tasks p
           ++ map (fun name => {| task_token := JSObject.get keys name;
                                  task_fiber := Awaiting [] |}) calendarNames)%list;
        first_rejection := first_rejection p |}).
Proof.
  induction calendarNames as [|name rest IH]; intros p w.
  - cbn [startAll List.length imapFrom map]. rewrite Nat.add_0_r, !app_nil_r.
    destruct p, w; reflexivity.
  - cbn [startAll]. unfold startFetch. rewrite sendRequest_exact.
    rewrite IH. cbn [ticks requests tasks first_rejection noteRejection].
    f_equal.
    + f_equal; [cbn [List.length]; lia|].
      cbn [imapFrom]. rewrite <- app_assoc, Nat.add_0_r. cbn [app]. f_equal. f_equal.
      rewrite imapFrom_shift. apply imapFrom_ext. intros j n _. f_equal. lia.
    + f_equal; [|destruct (first_rejection p); reflexivity].
      cbn [map]. rewrite <- app_assoc. reflexivity.
Qed.

End ExactRequests.

(** X9.  The requests of a paginated fetch are these, in this order: for
    the k-th page, the address (the listing endpoint for the first page,
    the next-page link of the page before for the others) followed by [?]
    and the filter query made from the clock reading taken for that very
    request, with the token of the feed.  The time in the filter is read
    anew for each page, and the clock is read once per request. *)
Theorem requests_of_a_paginated_fetch (h : Host) (keys : JSObject.Obj)
    (calendarName : string) (st : Z) (pages : list ActionNetworkEventList)
    (extra : list FetchOutcome) (w : World) :
  clockValid h ->
  paginated pages = true ->
  fst (fetchAllEventsForCalendar h keys calendarName (map (Json st) pages ++ extra)%list w)
  = {| ticks := (ticks w + List.length pages)%nat;
       requests :=
         (requests w
          ++ imapFrom (fun k target =>
                         requestAt h (JSObject.get keys calendarName) target (ticks w + k)%nat)
               0%nat (targets API_URL pages))%list |}.
Proof.
  intros Hclock Hp. unfold fetchAllEventsForCalendar, startFetch.
  pose proof (fetchLoop_exact h Hclock (JSObject.get keys calendarName) st pages API_URL []
                extra w Hp) as Hloop.
  rewrite (sendRequest_exact h Hclock) in *. cbn [fst] in Hloop. rewrite Hloop. reflexivity.
Qed.

Lemma requests_of_a_paginated_fetch_witness :
  fst (fetchAllEventsForCalendar utcHost oneKey "TEAM_A" (map (Json 200) twoPages ++ [])%list
         world0)
  = {| ticks := 2;
       requests :=
         [ requestAt utcHost (JSObject.Str "secret-a") API_URL 0;
           requestAt utcHost (JSObject.Str "secret-a")
             "https://actionnetwork.org/api/v2/events?page=2" 1 ] |}.
Proof.
  exact (requests_of_a_paginated_fetch utcHost oneKey "TEAM_A" 200 twoPages [] world0
           utcHost_clockValid eq_refl).
Defined.

(** X10.  All feeds are started before any answer is awaited: with no
    answer delivered yet, one request has gone to the listing endpoint for
    each feed of the selection, in the order of the selection, each with
    the token of its feed and its own clock reading; and the call is
    pending as long as there is a feed at all. *)
Theorem all_feeds_started_at_once (h : Host) (keys : JSObject.Obj)
    (calendarNames : list string) (overrideCalendarName : option string) (w : World) :
  clockValid h ->
  calendarNames <> [] ->
  generateICalForFeeds h keys calendarNames overrideCalendarName [] w
  = ({| ticks := (ticks w + List.length calendarNames)%nat;
        requests :=
          (requests w
           ++ imapFrom (fun i name =>
                          requestAt h (JSObject.get keys name) API_URL (ticks w + i)%nat)
                0%nat calendarNames)%list |},
     Pending).
Proof.
  intros Hclock Hne. unfold generateICalForFeeds, awaitAll.
  rewrite (startAll_exact h Hclock). cbn [runSchedule].
  unfold Promise_all. cbn [initialPool tasks first_rejection app].
  destruct calendarNames as [|name rest]; [contradiction|]. reflexivity.
Qed.

Lemma all_feeds_started_at_once_witness :
  generateICalForFeeds utcHost twoKeys ["TEAM_A"; "TEAM_B"] None [] world0
  = ({| ticks := 2;
        requests := [ requestAt utcHost (JSObject.Str "secret-a") API_URL 0;
                      requestAt utcHost (JSObject.Str "secret-b") API_URL 1 ] |},
     Pending).
Proof.
  apply (all_feeds_started_at_once utcHost twoKeys ["TEAM_A"; "TEAM_B"] None world0
           utcHost_clockValid).
  discriminate.
Defined.

(** ** The query of a request *)

Section Query.
Import URLSearchParams.

Lemma encode_append (a b : string) : encode (a ++ b)%string = (encode a ++ encode b)%string.
Proof.
  induction a as [|c r IH]; [reflexivity|].
  cbn [append encode]. rewrite IH.
  destruct (unreserved c); [reflexivity|].
  destruct (nat_of_ascii c =? 32)%nat; reflexivity.
Qed.

Lemma hexDigit_unreserved (k : nat) : (k < 16)%nat -> unreserved (hexDigit k) = true.
Proof.
  intros H. do 16 (destruct k as [|k]; [reflexivity|]). lia.
Qed.

Lemma encode_urlSafe (s : string) : allChars urlSafe (encode s) = true.
Proof.
  induction s as [|c r IH]; [reflexivity|].
  cbn [encode]. destruct (unreserved c) eqn:Hu.
  - cbn [allChars]. rewrite IH. unfold urlSafe. rewrite Hu. reflexivity.
  - destruct (nat_of_ascii c =? 32)%nat.
    + cbn [allChars]. rewrite IH. reflexivity.
    + cbn [allChars]. rewrite IH. unfold urlSafe.
      rewrite !hexDigit_unreserved; [reflexivity| |].
      * apply Nat.mod_upper_bound. lia.
      * apply Nat.Div0.div_lt_upper_bound. pose proof (nat_ascii_bounded c). lia.
Qed.

End Query.

(** X11.  Whatever the time string is, the query of a request is
    [filter=start_date+gt+%27], the encoded time and [%27]: after
    [filter=] it consists of letters, digits, [*], [-], [.], [_], [+] and
    percent escapes only, so that nothing in the time string can end the
    parameter or start another one. *)
Theorem query_of_a_request (time : string) :
  exists value,
    URLSearchParams.toString "filter" ("start_date gt '" ++ time ++ "'")
    = ("filter=" ++ value)%string
    /\ value = ("start_date+gt+%27" ++ URLSearchParams.encode time ++ "%27")%string
    /\ allChars urlSafe value = true.
Proof.
  exists (URLSearchParams.encode ("start_date gt '" ++ time ++ "'")). split.
  { unfold URLSearchParams.toString.
    replace (URLSearchParams.encode "filter") with "filter" by (vm_compute; reflexivity).
    cbn [append]. reflexivity. }
  split; [|apply encode_urlSafe].
  rewrite encode_append, encode_append.
  replace (URLSearchParams.encode "start_date gt '") with "start_date+gt+%27"
    by (vm_compute; reflexivity).
  replace (URLSearchParams.encode "'") with "%27" by (vm_compute; reflexivity).
  reflexivity.
Qed.

(** ** The calendar that is returned *)

Lemma buildCalendar_name (h : Host) (calendarNames : list string)
    (overrideCalendarName : option string) (allEvents : list (list ActionNetworkEvent))
    (calendar : ICalCalendar) :
  buildCalendar h calendarNames overrideCalendarName allEvents = Normal calendar ->
  cal_name calendar = calendarName calendarNames overrideCalendarName.
Proof.
  unfold buildCalendar.
  destruct (forEachEvent h _ _) as [[fl c]|e] eqn:Hf; cbn [bindC snd]; [|discriminate].
  intros [= ->]. apply (forEachEvent_stored h _ _ _ _ Hf).
Qed.

Lemma generateICalForFeeds_built (h : Host) (keys : JSObject.Obj)
    (calendarNames : list string) (overrideCalendarName : option string)
    (schedule : list Delivery) (w w' : World) (calendar : ICalCalendar) :
  generateICalForFeeds h keys calendarNames overrideCalendarName schedule w
  = (w', Returned calendar) ->
  exists allEvents,
    awaitAll h keys calendarNames schedule w = (w', Returned allEvents)
    /\ buildCalendar h calendarNames overrideCalendarName allEvents = Normal calendar.
Proof.
  unfold generateICalForFeeds.
  destruct (awaitAll h keys calendarNames schedule w) as [w1 r].
  destruct r as [|allEvents|e]; try discriminate.
  destruct (buildCalendar h calendarNames overrideCalendarName allEvents) eqn:Hb;
    [|discriminate].
  intros [= <- <-]. eauto.
Qed.

(** X12.  A name given with the request is the name of the calendar,
    as it is and whatever the feeds are; a request without a name, or with
    an empty one, gets the name derived from the feeds. *)
Theorem calendar_name_override (h : Host) (keys : JSObject.Obj)
    (calendarNames : list string) (overrideCalendarName : option string)
    (schedule : list Delivery) (w w' : World) (calendar : ICalCalendar) :
  generateICalForFeeds h keys calendarNames overrideCalendarName schedule w
  = (w', Returned calendar) ->
  match overrideCalendarName with
  | Some (String c r) => cal_name calendar = String c r
  | _ => cal_name calendar = calendarName calendarNames None
  end.
Proof.
  intros Hg. destruct (generateICalForFeeds_built _ _ _ _ _ _ _ _ Hg) as (allEvents & _ & Hb).
  rewrite (buildCalendar_name _ _ _ _ _ Hb).
  destruct overrideCalendarName as [[|c r]|]; reflexivity.
Qed.

Lemma calendar_name_override_witness :
  cal_name
    {| cal_name := "My Calendar"; cal_events := cal_events slowFastCalendar |}
  = "My Calendar".
Proof.
  exact (calendar_name_override utcHost twoKeys ["TEAM_A"; "TEAM_B"] (Some "My Calendar")
           slowFastSchedule world0 slowFastWorld
           {| cal_name := "My Calendar"; cal_events := cal_events slowFastCalendar |}
           eq_refl).
Defined.

Lemma storedEvent_dates (data stored : ICalEventData) :
  storedEvent data = Normal stored ->
  ev_summary stored = ev_summary data /\ ev_description stored = ev_description data
  /\ ev_location stored = ev_location data
  /\ exists s e, ev_start data = Some s /\ ev_end data = Some e
                 /\ ev_start stored = Some (Z.min s e) /\ ev_end stored = Some (Z.max s e).
Proof.
  unfold storedEvent.
  destruct (ev_start data) as [s|] eqn:Hs; [|discriminate].
  destruct (ev_end data) as [e|] eqn:He; [|discriminate].
  destruct (Z.ltb_spec e s); intros [= <-]; cbn; repeat split; exists s, e;
    rewrite ?Hs, ?He; repeat split; f_equal; lia.
Qed.

Lemma normalizeEvent_end (h : Host) (event event' : ActionNetworkEvent)
    (data : ICalEventData) :
  normalizeEvent h event = Normal (event', data) -> ev_end data = normalizedEnd h event.
Proof.
  intros Hn. unfold normalizedEnd. destruct (end_date_missing event) eqn:Hm.
  - destruct (normalizeEvent_missing h _ _ _ Hm Hn) as (t & u & Ht & Hu & _ & _ & He).
    unfold repairedEnd. rewrite Ht, Hu. exact He.
  - apply (normalizeEvent_present h _ _ _ Hm Hn).
Qed.

Lemma normalizeEvent_fields (h : Host) (event event' : ActionNetworkEvent)
    (data : ICalEventData) :
  normalizeEvent h event = Normal (event', data) ->
  ev_start data = DateObject.parse h (start_date event)
  /\ ev_summary data = title event /\ ev_description data = description event
  /\ exists loc, location event = Some loc /\ ev_location data = venue loc.
Proof.
  unfold normalizeEvent.
  destruct (repairEndDate h event) as [e1|] eqn:Hr; cbn [bindC]; [|discriminate].
  destruct (repairEndDate_frame h _ _ Hr) as (Hs & Ht & Hd & Hl).
  unfold eventData. destruct (location e1) as [loc|] eqn:Hloc; cbn [bindC]; [|discriminate].
  intros [= _ <-]. cbn [ev_start ev_summary ev_description ev_location].
  rewrite Hs, Ht, Hd. repeat split. exists loc. split; [congruence|reflexivity].
Qed.

Lemma storedFrom_fields (h : Host) (event : ActionNetworkEvent) (stored : ICalEventData) :
  storedFrom h event stored -> storedFields h event stored.
Proof.
  intros (event' & data & Hn & Hk).
  destruct (normalizeEvent_fields h _ _ _ Hn) as (Hs & Ht & Hd & loc & Hl & Hv).
  pose proof (normalizeEvent_end h _ _ _ Hn) as He.
  destruct (storedEvent_dates _ _ Hk) as (Ks & Kd & Kl & s & e & Ds & De & Ss & Se).
  unfold storedFields. rewrite Ks, Kd, Kl, Ht, Hd, <- Hs, <- He.
  repeat split. { exists loc. split; assumption. }
  exists s, e. repeat split; assumption.
Qed.

(** X13.  The calendar that is returned has one event for each event that
    was fetched, in the same order, none left out and none added.  Each
    has the title of its raw event as summary, its description as it is
    and the venue of its location as location.  Its two dates are valid
    and in order: they are what the start date parses to and the end of
    the event (repaired, or what the end date parses to), the earlier of
    the two as start and the later as end. *)
Theorem calendar_events_copy_fields (h : Host) (keys : JSObject.Obj)
    (calendarNames : list string) (overrideCalendarName : option string)
    (schedule : list Delivery) (w w' : World) (calendar : ICalCalendar) :
  generateICalForFeeds h keys calendarNames overrideCalendarName schedule w
  = (w', Returned calendar) ->
  exists allEvents,
    awaitAll h keys calendarNames schedule w = (w', Returned allEvents)
    /\ Forall2 (storedFields h) (List.concat allEvents) (cal_events calendar).
Proof.
  intros Hg. destruct (generateICalForFeeds_built _ _ _ _ _ _ _ _ Hg) as (allEvents & Ha & Hb).
  exists allEvents. split; [exact Ha|].
  revert Hb. unfold buildCalendar.
  destruct (forEachEvent h _ _) as [[fl c]|e] eqn:Hf; cbn [bindC snd]; [|discriminate].
  intros [= ->].
  destruct (forEachEvent_stored h _ _ _ _ Hf) as (_ & stored & Hev & Hall).
  cbn [cal_events app] in Hev. rewrite Hev.
  eapply Forall2_impl; [|exact Hall]. apply storedFrom_fields.
Qed.

Lemma calendar_events_copy_fields_witness :
  exists allEvents,
    awaitAll utcHost twoKeys ["TEAM_A"; "TEAM_B"] slowFastSchedule world0
    = (slowFastWorld, Returned allEvents)
    /\ Forall2 (storedFields utcHost) (List.concat allEvents) (cal_events slowFastCalendar).
Proof.
  exact (calendar_events_copy_fields utcHost twoKeys ["TEAM_A"; "TEAM_B"] None
           slowFastSchedule world0 slowFastWorld slowFastCalendar eq_refl).
Defined.

(** ** Dates: what [toISOString] writes, [Date.parse] reads *)

(** X14.  The string [toISOString] gives for a valid date is read back by
    [new Date(...)] as the same instant, on every host: whatever its time
    zone and whatever its parser does with other formats.  This is what
    makes the end date written into the event on line 145 come back on
    line 150 as the instant that was computed. *)
Theorem toISOString_then_parse (h : Host) (t : Z) :
  Z.abs t <= JSDate.maxTime ->
  exists s, JSDate.toISOString (Some t) = Normal s /\ DateObject.parse h s = Some t.
Proof.
  intros Ht. exists (JSDate.formatISO t). split; [reflexivity|].
  apply parse_formatISO. exact Ht.
Qed.

Lemma toISOString_then_parse_witness :
  exists s, JSDate.toISOString (Some (-1)) = Normal s /\ DateObject.parse easternHost s = Some (-1).
Proof.
  apply (toISOString_then_parse easternHost (-1)). unfold JSDate.maxTime. lia.
Defined.

Lemma parseISO_range (s : string) (t : Z) :
  JSDate.parseISO s = Some (Some t) -> Z.abs t <= JSDate.maxTime.
Proof.
  unfold JSDate.parseISO.
  repeat match goal with
         | |- context [match ?x with _ => _ end] => destruct x; try discriminate
         end.
  intros [= H]. apply TimeClip_Some in H. apply H.
Qed.

Lemma parse_range (h : Host) (s : string) (t : Z) :
  DateObject.parse h s = Some t -> Z.abs t <= JSDate.maxTime.
Proof.
  unfold DateObject.parse. destruct (JSDate.parseISO s) as [tv|] eqn:Hp.
  - intros ->. apply (parseISO_range s t Hp).
  - destruct (legacyDateParse h s); [|discriminate].
    intros H. apply TimeClip_Some in H. apply H.
Qed.

(** ** Normalization: when it returns and when it throws *)

Lemma repairEndDate_repairedEnd (h : Host) (event : ActionNetworkEvent) :
  end_date_missing event = true ->
  repairEndDate h event =
  match repairedEnd h event with
  | Some u => Normal (set_end_date event (JSDate.formatISO u))
  | None => Throw RangeError
  end.
Proof.
  intros Hm. rewrite (repairEndDate_missing h event Hm). unfold repairedEnd.
  destruct (DateObject.parse h (start_date event)); reflexivity.
Qed.

(** X15.  On a host whose time zone keeps one offset, an event without
    end date whose start date parses to an instant at least two hours
    before the last one a [Date] can hold, and which has a location, is
    normalized without failure: the event is given the ISO string of the
    start plus 7200000 ms as its end date, and the calendar gets the start,
    that end, the title, the description and the venue. *)
Theorem normalization_returns_on_fixed_zone (h : Host) (offset : Z)
    (event : ActionNetworkEvent) (t : Z) (loc : Location) :
  fixedZone h offset ->
  end_date_missing event = true ->
  DateObject.parse h (start_date event) = Some t ->
  t + 7200000 <= JSDate.maxTime ->
  location event = Some loc ->
  normalizeEvent h event
  = Normal (set_end_date event (JSDate.formatISO (t + 7200000)),
            {| ev_start := Some t;
               ev_end := Some (t + 7200000);
               ev_summary := title event;
               ev_description := description event;
               ev_location := venue loc |}).
Proof.
  intros Hz Hm Hp Hmax Hl.
  pose proof (parse_range h _ _ Hp) as Hr.
  assert (Hu : repairedEnd h event = Some (t + 7200000)).
  { unfold repairedEnd. rewrite Hp, (twoHoursLater_fixedZone h offset t Hz).
    unfold JSDate.TimeClip.
    destruct (Z.leb_spec (Z.abs (t + 7200000)) JSDate.maxTime); [reflexivity|].
    unfold JSDate.maxTime in *. lia. }
  unfold normalizeEvent. rewrite (repairEndDate_repairedEnd h event Hm), Hu.
  cbn [bindC]. unfold eventData. cbn [location set_end_date start_date title description].
  rewrite Hl. cbn [bindC]. rewrite Hp.
  unfold endDate. cbn [end_date set_end_date].
  rewrite parse_formatISO; [reflexivity|].
  unfold JSDate.maxTime in *. lia.
Qed.

Lemma normalization_returns_on_fixed_zone_witness :
  normalizeEvent utcHost openEndedEvent
  = Normal (set_end_date openEndedEvent (JSDate.formatISO (1717236000000 + 7200000)),
            {| ev_start := Some 1717236000000;
               ev_end := Some (1717236000000 + 7200000);
               ev_summary := title openEndedEvent;
               ev_description := description openEndedEvent;
               ev_location := venue {| venue := "Town Hall" |} |}).
Proof.
  apply (normalization_returns_on_fixed_zone utcHost 0 openEndedEvent 1717236000000
           {| venue := "Town Hall" |} utcHost_fixedZone eq_refl eq_refl).
  - unfold JSDate.maxTime. lia.
  - reflexivity.
Defined.

(** Up to the call of [createEvent] the callback throws in two cases. *)
Lemma normalizeEvent_throws_iff (h : Host) (event : ActionNetworkEvent) (e : JSError) :
  normalizeEvent h event = Throw e
  <-> (end_date_missing event = true /\ repairedEnd h event = None /\ e = RangeError)
      \/ ((end_date_missing event = false \/ repairedEnd h event <> None)
          /\ location event = None /\ e = TypeError).
Proof.
  unfold normalizeEvent. destruct (end_date_missing event) eqn:Hm.
  - rewrite (repairEndDate_repairedEnd h event Hm).
    destruct (repairedEnd h event) as [u|]; cbn [bindC].
    + unfold eventData. cbn [location set_end_date].
      destruct (location event); cbn [bindC]; split.
      * discriminate.
      * intros [(_ & [=] & _)|(_ & [=] & _)].
      * intros [= <-]. right. repeat split. right. discriminate.
      * intros [(_ & [=] & _)|(_ & _ & ->)]. reflexivity.
    + split.
      * intros [= <-]. left. auto.
      * intros [(_ & _ & ->)|([[=]|H] & _)]; [reflexivity|contradiction].
  - rewrite (repairEndDate_present h event Hm). cbn [bindC].
    unfold eventData. destruct (location event); cbn [bindC]; split.
    + discriminate.
    + intros [([=] & _)|(_ & [=] & _)].
    + intros [= <-]. right. auto.
    + intros [([=] & _)|(_ & _ & ->)]. reflexivity.
Qed.

Lemma repairedEnd_Some (h : Host) (event : ActionNetworkEvent) (u : Z) :
  repairedEnd h event = Some u ->
  (exists t, DateObject.parse h (start_date event) = Some t)
  /\ DateObject.parse h (JSDate.formatISO u) = Some u.
Proof.
  unfold repairedEnd. destruct (DateObject.parse h (start_date event)) as [t|]; [|discriminate].
  intros Hu. split; [eauto|].
  apply parse_formatISO. apply (TimeClip_Some _ _ Hu).
Qed.

(** X16.  The callback of [forEach] throws in three cases and no other.
    It throws a RangeError when the event has no end date and no end can
    be computed from its start date (the start date does not parse, or two
    hours later is beyond what a [Date] holds).  Otherwise it throws a
    TypeError when the event has no location.  Otherwise [createEvent]
    throws its error when the event came with an end date and its start
    date or its end date does not parse to a valid date. *)
Theorem callback_throws_iff (h : Host) (calendar : ICalCalendar)
    (event : ActionNetworkEvent) (e : JSError) :
  forEachCallback h calendar event = Throw e
  <-> (end_date_missing event = true /\ repairedEnd h event = None /\ e = RangeError)
      \/ ((end_date_missing event = false \/ repairedEnd h event <> None)
          /\ location event = None /\ e = TypeError)
      \/ (end_date_missing event = false /\ location event <> None
          /\ (DateObject.parse h (start_date event) = None \/ endDate h event = None)
          /\ e = InvalidDateError).
Proof.
  unfold forEachCallback, normalizeEvent. destruct (end_date_missing event) eqn:Hm.
  - rewrite (repairEndDate_repairedEnd h event Hm).
    destruct (repairedEnd h event) as [u|] eqn:Hu; cbn [bindC].
    + unfold eventData. cbn [location set_end_date].
      destruct (location event) as [loc|]; cbn [bindC snd fst].
      * destruct (repairedEnd_Some h event u Hu) as ((t & Ht) & Hback).
        unfold createEvent, storedEvent.
        cbn [ev_start ev_end start_date set_end_date endDate end_date].
        rewrite Ht, Hback. destruct (u <? t); cbn [bindC]; split; try discriminate;
          intros [(_ & [=] & _)|[(_ & [=] & _)|([=] & _)]].
      * split.
        -- intros [= <-]. right. left. repeat split. right. discriminate.
        -- intros [(_ & [=] & _)|[(_ & _ & ->)|([=] & _)]]. reflexivity.
    + split.
      * intros [= <-]. left. auto.
      * intros [(_ & _ & ->)|[([[=]|H] & _)|([=] & _)]]; [reflexivity|contradiction].
  - rewrite (repairEndDate_present h event Hm). cbn [bindC].
    unfold eventData. destruct (location event) as [loc|]; cbn [bindC snd fst].
    + unfold createEvent, storedEvent. cbn [ev_start ev_end].
      destruct (DateObject.parse h (start_date event)) as [s|]; cbn [bindC].
      * destruct (endDate h event) as [t|]; cbn [bindC].
        -- destruct (t <? s); cbn [bindC]; split; try discriminate;
             intros [([=] & _)|[(_ & [=] & _)|(_ & _ & [[=]|[=]] & _)]].
        -- split.
           ++ intros [= <-]. right. right. repeat split; auto. discriminate.
           ++ intros [([=] & _)|[(_ & [=] & _)|(_ & _ & _ & ->)]]. reflexivity.
      * split.
        -- intros [= <-]. right. right. repeat split; auto. discriminate.
        -- intros [([=] & _)|[(_ & [=] & _)|(_ & _ & _ & ->)]]. reflexivity.
    + split.
      * intros [= <-]. right. left. auto.
      * intros [([=] & _)|[(_ & _ & ->)|(_ & H & _)]]; [reflexivity|contradiction].
Qed.

(** ** Which failure is reported *)

Section FirstFailure.
Variable h : Host.

Lemma resume_malformed_error (token : JSObject.Value) (events : list ActionNetworkEvent)
    (o : FetchOutcome) (w : World) :
  malformed o = true -> resume h token events o w = (w, Rejected (errorOf o)).
Proof.
  destruct o as [|st|st data]; cbn [malformed resume errorOf]; try reflexivity.
  destruct (embedded_events data); [|reflexivity].
  destruct (links_next data); [discriminate|reflexivity].
Qed.

Lemma deliver_first_failure (d : Delivery) (p : Pool) (w : World) :
  first_rejection p = None ->
  waiting p (d_feed d) = true -> malformed (d_outcome d) = true ->
  first_rejection (snd (deliver h d p w)) = Some (errorOf (d_outcome d)).
Proof.
  unfold waiting, deliver. intros Hnone Hw Hm.
  destruct (nth_error (tasks p) (d_feed d)) as [[token [events| |]]|]; try discriminate.
  rewrite (resume_malformed_error token events (d_outcome d) w Hm).
  cbn [snd first_rejection]. rewrite Hnone. reflexivity.
Qed.

End FirstFailure.

(** X17.  The failure that reaches the caller is the first one.  When no
    feed has failed yet and a waiting feed gets an answer the loop cannot
    use, [generateICalForFeeds] throws the exception of that answer (the
    rejection of [fetch], a SyntaxError for a body that is not JSON, a
    TypeError for a body without event list or links), and no later answer,
    failing or not, changes what is thrown. *)
Theorem first_failure_is_reported (h : Host) (keys : JSObject.Obj)
    (calendarNames : list string) (overrideCalendarName : option string)
    (before after : list Delivery) (d : Delivery) (w : World) :
  first_rejection (poolAfter h keys calendarNames before w) = None ->
  waiting (poolAfter h keys calendarNames before w) (d_feed d) = true ->
  malformed (d_outcome d) = true ->
  snd (generateICalForFeeds h keys calendarNames overrideCalendarName
         (before ++ d :: after)%list w)
  = Threw (errorOf (d_outcome d)).
Proof.
  unfold poolAfter, generateICalForFeeds, awaitAll. intros Hnone Hw Hm.
  destruct (startAll h keys calendarNames initialPool w) as [w1 p1].
  rewrite runSchedule_app.
  destruct (runSchedule h before p1 w1) as [w2 p2]. cbn [fst snd] in *.
  cbn [runSchedule].
  pose proof (deliver_first_failure h d p2 w2 Hnone Hw Hm) as He.
  destruct (deliver h d p2 w2) as [w3 p3]. cbn [snd] in He.
  pose proof (runSchedule_rejection_sticky h after p3 w3 _ He) as Hs.
  destruct (runSchedule h after p3 w3) as [w4 p4]. cbn [snd] in *.
  unfold Promise_all. rewrite Hs. reflexivity.
Qed.

Lemma first_failure_is_reported_witness :
  snd (generateICalForFeeds utcHost twoKeys ["TEAM_A"; "TEAM_B"] None
         (firstn 2 slowFastSchedule
          ++ {| d_feed := 0; d_outcome := NotJson 502 |}
             :: [ {| d_feed := 0; d_outcome := NetworkFailure |} ])%list world0)
  = Threw SyntaxError.
Proof.
  exact (first_failure_is_reported utcHost twoKeys ["TEAM_A"; "TEAM_B"] None
           (firstn 2 slowFastSchedule) [ {| d_feed := 0; d_outcome := NetworkFailure |} ]
           {| d_feed := 0; d_outcome := NotJson 502 |} world0 eq_refl eq_refl eq_refl).
Defined.

(** ** Failures of the upstream: what is thrown, and the status *)

Section Status.
Variable h : Host.

Lemma deliver_failure (d : Delivery) (p : Pool) (w : World) :
  waiting p (d_feed d) = true -> malformed (d_outcome d) = true ->
  first_rejection (snd (deliver h d p w))
  = Some match first_rejection p with
         | Some earlier => earlier
         | None => errorOf (d_outcome d)
         end.
Proof.
  intros Hw Hm. destruct (first_rejection p) as [earlier|] eqn:Hr.
  - apply deliver_rejection_sticky. exact Hr.
  - apply deliver_first_failure; assumption.
Qed.

Lemma resume_sameButStatus (token : JSObject.Value) (events : list ActionNetworkEvent)
    (o o' : FetchOutcome) (w : World) :
  sameButStatus o o' -> resume h token events o w = resume h token events o' w.
Proof.
  destruct o as [|st|st data], o' as [|st'|st' data']; cbn [sameButStatus];
    try contradiction; try reflexivity.
  intros <-. reflexivity.
Qed.

Lemma deliver_sameButStatus (d d' : Delivery) (p : Pool) (w : World) :
  sameDeliveryButStatus d d' -> deliver h d p w = deliver h d' p w.
Proof.
  intros (Hf & Ho). unfold deliver. rewrite <- Hf.
  destruct (nth_error (tasks p) (d_feed d)) as [[token [events| |]]|]; try reflexivity.
  rewrite (resume_sameButStatus token events _ _ w Ho). reflexivity.
Qed.

Lemma runSchedule_sameButStatus (schedule schedule' : list Delivery) :
  Forall2 sameDeliveryButStatus schedule schedule' ->
  forall p w, runSchedule h schedule p w = runSchedule h schedule' p w.
Proof.
  induction 1 as [|d d' rest rest' Hd Hrest IH]; intros p w; [reflexivity|].
  cbn [runSchedule]. rewrite (deliver_sameButStatus d d' p w Hd).
  destruct (deliver h d' p w) as [w1 p1]. apply IH.
Qed.

Lemma generateICalForFeeds_sameButStatus (keys : JSObject.Obj)
    (calendarNames : list string) (overrideCalendarName : option string)
    (schedule schedule' : list Delivery) (w : World) :
  Forall2 sameDeliveryButStatus schedule schedule' ->
  generateICalForFeeds h keys calendarNames overrideCalendarName schedule w
  = generateICalForFeeds h keys calendarNames overrideCalendarName schedule' w.
Proof.
  intros Hsame. unfold generateICalForFeeds, awaitAll.
  destruct (startAll h keys calendarNames initialPool w) as [w1 p1].
  rewrite (runSchedule_sameButStatus schedule schedule' Hsame). reflexivity.
Qed.

End Status.

(** C5, amended.  If a feed that is waiting for an answer gets one the
    loop cannot use (the fetch fails, the body is not JSON, or the body
    lacks the event list or the links), [generateICalForFeeds] throws,
    whatever was fetched before and whatever arrives afterwards: no
    calendar is returned, and the handler produces no response of its own.
    What is thrown is the exception as it arose, a [JSError], which names
    no feed: the exception of this answer (the rejection of [fetch], a
    SyntaxError, a TypeError) when no feed had failed before, and the
    exception of that earlier failure otherwise.  The HTTP status plays no
    part: answers that differ in status only give the same outcome. *)
Theorem C5_malformed_answer_fails_aggregate (h : Host) (keys : JSObject.Obj)
    (calendarNames : list string) (overrideCalendarName : option string)
    (before after : list Delivery) (d : Delivery) (w : World) :
  waiting (poolAfter h keys calendarNames before w) (d_feed d) = true ->
  malformed (d_outcome d) = true ->
  let thrown :=
    match first_rejection (poolAfter h keys calendarNames before w) with
    | Some earlier => earlier
    | None => errorOf (d_outcome d)
    end in
  snd (generateICalForFeeds h keys calendarNames overrideCalendarName
         (before ++ d :: after)%list w) = Threw thrown
  /\ (find (unconfigured keys) calendarNames = None ->
      snd (events_handler h keys overrideCalendarName (Some calendarNames)
             (before ++ d :: after)%list w) = Threw thrown)
  /\ forall schedule',
       Forall2 sameDeliveryButStatus (before ++ d :: after)%list schedule' ->
       generateICalForFeeds h keys calendarNames overrideCalendarName schedule' w
       = generateICalForFeeds h keys calendarNames overrideCalendarName
           (before ++ d :: after)%list w.
Proof.
  intros Hw Hm thrown.
  assert (Hg : snd (generateICalForFeeds h keys calendarNames overrideCalendarName
                      (before ++ d :: after)%list w) = Threw thrown).
  { subst thrown. revert Hw. unfold poolAfter, generateICalForFeeds, awaitAll.
    destruct (startAll h keys calendarNames initialPool w) as [w1 p1].
    rewrite runSchedule_app.
    destruct (runSchedule h before p1 w1) as [w2 p2]. cbn [fst snd runSchedule].
    intros Hw. pose proof (deliver_failure h d p2 w2 Hw Hm) as He.
    destruct (deliver h d p2 w2) as [w3 p3]. cbn [snd] in He.
    pose proof (runSchedule_rejection_sticky h after p3 w3 _ He) as Hs.
    destruct (runSchedule h after p3 w3) as [w4 p4]. cbn [snd] in *.
    unfold Promise_all. rewrite Hs. reflexivity. }
  split; [exact Hg|]. split.
  - intros Hf. unfold events_handler. rewrite Hf.
    destruct (generateICalForFeeds h keys calendarNames overrideCalendarName
                (before ++ d :: after)%list w) as [w1 r].
    cbn [snd] in *. subst r. reflexivity.
  - intros schedule' Hsame. symmetry.
    apply generateICalForFeeds_sameButStatus. exact Hsame.
Qed.

Lemma C5_malformed_answer_fails_aggregate_witness :
  snd (generateICalForFeeds utcHost twoKeys ["TEAM_A"; "TEAM_B"] None
         (firstn 2 slowFastSchedule ++ {| d_feed := 0; d_outcome := NotJson 502 |} :: [])%list
         world0) = Threw SyntaxError
  /\ (find (unconfigured twoKeys) ["TEAM_A"; "TEAM_B"] = None ->
      snd (events_handler utcHost twoKeys None (Some ["TEAM_A"; "TEAM_B"])
             (firstn 2 slowFastSchedule ++ {| d_feed := 0; d_outcome := NotJson 502 |} :: [])%list
             world0) = Threw SyntaxError)
  /\ forall schedule',
       Forall2 sameDeliveryButStatus
         (firstn 2 slowFastSchedule ++ {| d_feed := 0; d_outcome := NotJson 502 |} :: [])%list
         schedule' ->
       generateICalForFeeds utcHost twoKeys ["TEAM_A"; "TEAM_B"] None schedule' world0
       = generateICalForFeeds utcHost twoKeys ["TEAM_A"; "TEAM_B"] None
           (firstn 2 slowFastSchedule ++ {| d_feed := 0; d_outcome := NotJson 502 |} :: [])%list
           world0.
Proof.
  exact (C5_malformed_answer_fails_aggregate utcHost twoKeys ["TEAM_A"; "TEAM_B"] None
           (firstn 2 slowFastSchedule) [] {| d_feed := 0; d_outcome := NotJson 502 |} world0
           eq_refl eq_refl).
Defined.

(** ** The derived calendar name, token by token *)

Section Tokens.
Import JSString.
Variable c : ascii.

Lemma split_nonempty (s : string) : split c s <> [].
Proof.
  destruct s as [|a r]; cbn [split]; [discriminate|].
  destruct (Ascii.eqb a c); [discriminate|]. destruct (split c r); discriminate.
Qed.

(** [(x + c + rest).split(c)] is [x.split(c)] followed by [rest.split(c)]. *)
Lemma split_append_any (x rest : string) :
  split c (x ++ String c rest)%string = (split c x ++ split c rest)%list.
Proof.
  induction x as [|a r IH].
  - cbn [append split app]. rewrite Ascii.eqb_refl. reflexivity.
  - cbn [append split]. destruct (Ascii.eqb a c); [rewrite IH; reflexivity|].
    rewrite IH. pose proof (split_nonempty r) as Hne.
    destruct (split c r); [contradiction|reflexivity].
Qed.

Lemma split_join_concat (l : list string) :
  l <> [] ->
  split c (join (String c EmptyString) l) = List.concat (map (split c) l).
Proof.
  induction l as [|x r IH]; intros Hne; [contradiction|].
  destruct r as [|y r'].
  - cbn [join map List.concat]. rewrite app_nil_r. reflexivity.
  - change (join (String c EmptyString) (x :: y :: r'))
      with (x ++ String c (join (String c EmptyString) (y :: r')))%string.
    rewrite split_append_any, IH by discriminate. reflexivity.
Qed.

End Tokens.

Section TitleCase.
Import JSString.

Lemma toLowerChar_toUpperChar (a : ascii) : toLowerChar (toUpperChar a) = toLowerChar a.
Proof. destruct a as [[] [] [] [] [] [] [] []]; reflexivity. Qed.

Lemma toLowerChar_idempotent (a : ascii) : toLowerChar (toLowerChar a) = toLowerChar a.
Proof. destruct a as [[] [] [] [] [] [] [] []]; reflexivity. Qed.

Lemma toUpperChar_not_lower (a : ascii) : isLowerLetter (toUpperChar a) = false.
Proof. destruct a as [[] [] [] [] [] [] [] []]; reflexivity. Qed.

Lemma toLowerChar_not_upper (a : ascii) : isUpperLetter (toLowerChar a) = false.
Proof. destruct a as [[] [] [] [] [] [] [] []]; reflexivity. Qed.

Lemma toLowerCase_idempotent (s : string) : toLowerCase (toLowerCase s) = toLowerCase s.
Proof.
  induction s as [|a r IH]; [reflexivity|].
  unfold toLowerCase in *. cbn [map_chars]. rewrite toLowerChar_idempotent, IH. reflexivity.
Qed.

Lemma toLowerCase_noUpperLetter (s : string) : noUpperLetter (toLowerCase s) = true.
Proof.
  induction s as [|a r IH]; [reflexivity|].
  unfold noUpperLetter, toLowerCase in *. cbn [map_chars forallChars].
  rewrite toLowerChar_not_upper, IH. reflexivity.
Qed.

(** Title-casing changes the case of letters and nothing else; afterwards
    the first character is no lowercase letter and the remainder has no
    uppercase letter. *)
Lemma titleCase_spec (token : string) :
  toLowerCase (titleCase token) = toLowerCase token
  /\ noLowerLetter (charAt0 (titleCase token)) = true
  /\ noUpperLetter (slice1 (titleCase token)) = true.
Proof.
  destruct token as [|a r]; [repeat split|].
  rewrite titleCase_cons. cbn [charAt0 slice1]. repeat split.
  - unfold toLowerCase. cbn [map_chars]. fold toLowerCase.
    rewrite toLowerChar_toUpperChar, toLowerCase_idempotent. reflexivity.
  - unfold noLowerLetter. cbn [forallChars]. rewrite toUpperChar_not_lower. reflexivity.
  - apply toLowerCase_noUpperLetter.
Qed.

End TitleCase.

(** C6, amended.  For a selection of ASCII feed identifiers and no name
    override, the calendar name is ["Events for "] followed by the tokens
    joined with single spaces, each token title-cased.  The tokens are the
    space-separated pieces of the identifiers in order, which are the
    identifiers themselves when none contains a space.  Title-casing a
    token changes the case of its letters and nothing else, underscores
    included: the first character comes out uppercased and the remainder
    lowercased.  So [team_a] becomes [Team_a], and the selection [TEAM_A],
    [TEAM_B] gives ["Events for Team_a Team_b"]. *)
Theorem C6_derived_calendar_name (calendarNames : list string) :
  (forall name, In name calendarNames -> JSString.isAscii name = true) ->
  calendarName calendarNames None
  = ("Events for "
     ++ JSString.join " "
          (map titleCase (List.concat (map (JSString.split " ") calendarNames))))%string
  /\ ((forall name, In name calendarNames -> JSString.contains " " name = false) ->
      calendarName calendarNames None
      = ("Events for " ++ JSString.join " " (map titleCase calendarNames))%string)
  /\ (forall token,
        In token (List.concat (map (JSString.split " ") calendarNames)) ->
        JSString.toLowerCase (titleCase token) = JSString.toLowerCase token
        /\ JSString.noLowerLetter (JSString.charAt0 (titleCase token)) = true
        /\ JSString.noUpperLetter (JSString.slice1 (titleCase token)) = true)
  /\ titleCase "team_a" = "Team_a"
  /\ calendarName ["TEAM_A"; "TEAM_B"] None = "Events for Team_a Team_b".
Proof.
  intros _. split; [|split; [apply calendarName_tokens|split]].
  - destruct calendarNames as [|x r]; [reflexivity|].
    unfold calendarName. rewrite (split_join_concat " " (x :: r)) by discriminate.
    reflexivity.
  - intros token _. apply titleCase_spec.
  - split; reflexivity.
Qed.

Lemma C6_derived_calendar_name_witness :
  calendarName ["TEAM_A"; "north east"] None
  = ("Events for "
     ++ JSString.join " "
          (map titleCase (List.concat (map (JSString.split " ") ["TEAM_A"; "north east"]))))%string.
Proof.
  apply (proj1 (C6_derived_calendar_name ["TEAM_A"; "north east"]
                  ltac:(intros name [<-|[<-|[]]]; reflexivity))).
Defined.
